(** * Quorum: per-call security middleware and contract access decisions

    A shallow embedding of [rpc/security.go] (token expiry, method-level
    access, tenant resolution, correlation-id tagging and the JSON-RPC error
    reply) and of the contract access decision engine exercised by
    [plugin/security/service_test.go]. *)

From Stdlib Require Import ZArith List String Ascii Strings.Byte Bool Lia Arith.
From Stdlib Require Import DecimalString.
Import ListNotations.

Local Open Scope string_scope.
Local Open Scope Z_scope.

(** ** Go errors

    A Go [error] is an interface value.  The middleware only ever asks an
    error for its text ([Error()]) and, through the [rpc.Error] interface,
    for an optional numeric code ([ErrorCode()]); it also compares against one
    package-level sentinel.  The constructors are the dynamic types that can
    flow through [rpc/security.go]. *)
Module errors.

Inductive error : Type :=
| securityError (message : string)           (* rpc: &securityError{message} *)
| errorString (text : string)                (* errors.New / fmt.Errorf values *)
| ErrNotAuthorized                           (* multitenancy.ErrNotAuthorized *)
| codedError (code : Z) (message : string).  (* any other implementor of rpc.Error *)

(** [err.Error()]; the text of the sentinel is the one package
    [multitenancy] gives it. *)
Definition Error (e : error) : string :=
  match e with
  | securityError message => message
  | errorString text => text
  | ErrNotAuthorized => "not authorized"
  | codedError _ message => message
  end.

(** [err.(Error)] followed by [ErrorCode()]: [None] when the dynamic type
    does not implement [rpc.Error].  [securityError.ErrorCode] is the
    constant of line 68. *)
Definition ErrorCode (e : error) : option Z :=
  match e with
  | securityError _ => Some (-32001)
  | codedError code _ => Some code
  | errorString _ | ErrNotAuthorized => None
  end.

End errors.
Export errors.

(** ** Messages of the security plugin SDK ([proto]) *)
Module proto.

(** [google.protobuf.Timestamp]: [Seconds] is an int64, [Nanos] an int32. *)
Record Timestamp : Type := mkTimestamp { Seconds : Z; Nanos : Z }.

Record GrantedAuthority : Type := mkGrantedAuthority {
  Service : string;
  Method : string;
  Raw : string
}.

(** A [nil] [ExpiredAt] pointer is [None]. *)
Record PreAuthenticatedAuthenticationToken : Type := mkToken {
  RawToken : list byte;
  ExpiredAt : option Timestamp;
  Authorities : list GrantedAuthority
}.

End proto.

(** ** [ptypes.Timestamp] of golang/protobuf

    The conversion used by [verifyExpiration], as the library documents it:
    the timestamp is validated (a [nil] timestamp, seconds outside years 1
    to 9999 and nanoseconds outside a second are errors) and converted with
    [time.Unix].  An instant is kept as its number of nanoseconds since the
    Unix epoch. *)
Module ptypes.
Import proto.

Definition Time := Z.

Definition minValidSeconds : Z := -62135596800.
Definition maxValidSeconds : Z := 253402300800.

(** [time.Unix(sec, nsec)] *)
Definition Unix (sec nsec : Z) : Time := sec * 1000000000 + nsec.

Definition showZ (z : Z) : string := NilZero.string_of_int (Z.to_int z).

(** Text of a timestamp inside the library's messages. *)
Definition showTimestamp (ts : Timestamp) : string :=
  "seconds:" ++ showZ (Seconds ts) ++ " nanos:" ++ showZ (Nanos ts).

Definition validateTimestamp (ts : option Timestamp) : option error :=
  match ts with
  | None => Some (errorString "timestamp: nil Timestamp")
  | Some t =>
      if Seconds t <? minValidSeconds then
        Some (errorString ("timestamp: " ++ showTimestamp t ++ " before 0001-01-01"))
      else if maxValidSeconds <=? Seconds t then
        Some (errorString ("timestamp: " ++ showTimestamp t ++ " after 10000-01-01"))
      else if (Nanos t <? 0) || (1000000000 <=? Nanos t) then
        Some (errorString ("timestamp: " ++ showTimestamp t ++ ": nanos not in range [0, 1e9)"))
      else None
  end.

(** [ptypes.Timestamp(ts)]: the instant together with the validation
    error; a [nil] timestamp is converted like the empty one. *)
Definition Timestamp_ (ts : option Timestamp) : Time * option error :=
  let t := match ts with
           | None => Unix 0 0
           | Some t => Unix (Seconds t) (Nanos t)
           end in
  (t, validateTimestamp ts).

(** [t.Before(u)] *)
Definition Before (t u : Time) : bool := t <? u.

End ptypes.

(** ** [rpc/security.go] *)
Module rpc.
Import proto.

(** [serviceMethodSeparator] of [rpc/service.go]. *)
Definition serviceMethodSeparator : string := "_".

(** [defaultErrorCode] of [rpc/errors.go]. *)
Definition defaultErrorCode : Z := -32000.

(** [vsn] of [rpc/json.go]. *)
Definition vsn : string := "2.0".

(** A [*proto.PreAuthenticatedAuthenticationToken]; [None] is the [nil]
    pointer. *)
Definition tokenPtr := option PreAuthenticatedAuthenticationToken.

(** [verifyExpiration]; [now] is the reading of [time.Now()].  The result
    is the returned [error], [None] for [nil]. *)
Definition verifyExpiration (now : ptypes.Time) (token : tokenPtr) : option error :=
  match token with
  | None => None
  | Some tok =>
      let '(expiredAt, err) := ptypes.Timestamp_ (ExpiredAt tok) in
      match err with
      | Some e => Some (errorString ("invalid timestamp in token: " ++ errors.Error e))
      | None =>
          if ptypes.Before now expiredAt then None
          else Some (securityError "token expired")
      end
  end.

(** The four tests of the loop body of [verifyAccess], in source order. *)
Definition authorityGrants (service method : string) (authority : GrantedAuthority) : bool :=
  if (Service authority =? "*")%string && (Method authority =? "*")%string then true
  else if (Service authority =? "*")%string && (Method authority =? method)%string then true
  else if (Service authority =? service)%string && (Method authority =? "*")%string then true
  else if (Service authority =? service)%string && (Method authority =? method)%string then true
  else false.

(** [verifyAccess]: the [for range] loop returns [nil] at the first
    authority that grants the call. *)
Fixpoint verifyAccess (service method : string) (authorities : list GrantedAuthority)
  : option error :=
  match authorities with
  | [] => Some (securityError (service ++ serviceMethodSeparator ++ method ++ " - access denied"))
  | authority :: rest =>
      if authorityGrants service method authority then None
      else verifyAccess service method rest
  end.

(** *** Strings and byte slices, as the Go library has them *)

(** [strings.HasPrefix(s, prefix)] *)
Definition HasPrefix (s prefix : string) : bool := String.prefix prefix s.

(** [strings.HasSuffix(s, suffix)]:
    [len(s) >= len(suffix) && s[len(s)-len(suffix):] == suffix] *)
Definition HasSuffix (s suffix : string) : bool :=
  (String.length suffix <=? String.length s)%nat
  && (substring (String.length s - String.length suffix) (String.length suffix) s =? suffix)%string.

(** [strings.Index(s, substr)]: the offset of the first occurrence, [None]
    for -1. *)
Fixpoint Index (s substr : string) : option nat :=
  if String.prefix substr s then Some 0%nat
  else match s with
       | EmptyString => None
       | String _ rest => option_map S (Index rest substr)
       end.

(** The loop of [strings.genSplit] for a non-empty separator: at most
    [cuts] cuts, the remainder being the last piece. *)
Fixpoint genSplit (s sep : string) (cuts : nat) : list string :=
  match cuts with
  | O => [s]
  | S cuts' =>
      match Index s sep with
      | None => [s]
      | Some m =>
          substring 0 m s
          :: genSplit (substring (m + String.length sep)
                                 (String.length s - (m + String.length sep)) s) sep cuts'
      end
  end.

(** [strings.SplitN(s, sep, n)] for [n >= 0] and a non-empty [sep]. *)
Definition SplitN (s sep : string) (n : nat) : list string :=
  match n with
  | O => []
  | S cuts => genSplit s sep cuts
  end.

(** [make([]byte, n)] *)
Definition make (n : nat) : list byte := repeat x00 n.

(** [a[i] = b] for an index within the slice (both indices written by
    [encodePSI] are: the slice has at least three bytes). *)
Fixpoint store (a : list byte) (i : nat) (b : byte) : list byte :=
  match a, i with
  | [], _ => []
  | _ :: rest, O => b :: rest
  | x :: rest, S i' => x :: store rest i' b
  end.

(** [copy(a[lo:hi], src)]: [min(hi - lo, len(src))] bytes are written. *)
Definition copy (a : list byte) (lo hi : nat) (src : list byte) : list byte :=
  let n := Nat.min (hi - lo) (List.length src) in
  firstn lo a ++ firstn n src ++ skipn (lo + n) a.

(** [a[lo:hi]] *)
Definition slice (a : list byte) (lo hi : nat) : list byte :=
  firstn (hi - lo) (skipn lo a).

(** *** Tenant identifiers *)

(** [types.PrivateStateIdentifier], a string type. *)
Definition PrivateStateIdentifier := string.

(** [types.DefaultPrivateStateIdentifier] of [core/types]. *)
Definition DefaultPrivateStateIdentifier : PrivateStateIdentifier := "private".

(** The one-character string holding a double quote (byte [x22]). *)
Definition dquote : string := String "034"%char EmptyString.

(** [encodePSI]: [newID[0]] and [newID[len(newID)-1]] receive the double
    quote, then the two [copy] calls fill in the identifier and the
    separator followed by the counter. *)
Definition encodePSI (idCounterBytes : list byte) (psi : PrivateStateIdentifier) : list byte :=
  if (String.length psi =? 0)%nat then idCounterBytes
  else
    let n := (List.length idCounterBytes + String.length psi + 3)%nat in
    let newID := make n in
    let newID := store (store newID 0 x22) (n - 1) x22 in
    let newID := copy newID 1 (String.length psi + 1) (list_byte_of_string psi) in
    let newID := copy newID (String.length psi + 1) n
                      (list_byte_of_string "/" ++ idCounterBytes) in
    newID.

(** [decodePSI] *)
Definition decodePSI (id : list byte) : PrivateStateIdentifier :=
  let idStr := string_of_list_byte id in
  if negb (HasPrefix idStr dquote) || negb (HasSuffix idStr dquote) then
    DefaultPrivateStateIdentifier
  else
    match Index idStr "/" with
    | None => DefaultPrivateStateIdentifier
    | Some sepIdx => string_of_list_byte (slice id 1 sepIdx)
    end.

(** *** The security context and the call *)

(** The values [secureCall] reads from, and writes to, a security context,
    one field per context key; [None] is a key that is absent or whose value
    fails the type assertion made on it. *)
Record securityContext : Type := mkSecurityContext {
  ctxAuthenticationError : option error;
  CtxPreauthenticatedToken : option tokenPtr;
  ctxIsMultitenant : option bool;
  ctxRequestPrivateStateIdentifier : option PrivateStateIdentifier;
  CtxPrivateStateIdentifier : option PrivateStateIdentifier
}.

(** [context.Background()] *)
Definition Background : securityContext := mkSecurityContext None None None None None.

(** [context.WithValue(secCtx, CtxPrivateStateIdentifier, psi)] *)
Definition WithPrivateStateIdentifier (secCtx : securityContext) (psi : PrivateStateIdentifier)
  : securityContext :=
  mkSecurityContext (ctxAuthenticationError secCtx) (CtxPreauthenticatedToken secCtx)
                    (ctxIsMultitenant secCtx) (ctxRequestPrivateStateIdentifier secCtx)
                    (Some psi).

(** The [securityContextResolver] interface; [Resolve] answers [None] for a
    [nil] context. *)
Record securityContextResolver : Type := mkResolver {
  Resolve : option securityContext
}.

(** [jsonError] and [jsonrpcMessage] of [rpc/json.go]; the [Data] of a
    [jsonError], which [securityErrorMessage] leaves [nil], is not kept. *)
Record jsonError : Type := mkJsonError {
  Code : Z;
  Message : string
}.

Record jsonrpcMessage : Type := mkMessage {
  Version : string;
  ID : list byte;
  Method : string;
  Params : list byte;
  Error : option jsonError;
  Result : list byte
}.

(** The two functions of package [multitenancy] that [secureCall] calls:
    [ExtractPSI(authToken)] and
    [Authorize(authToken, (&PrivateStateSecurityAttribute{}).WithPSI(psi))]. *)
Class Multitenancy : Type := {
  ExtractPSI : tokenPtr -> PrivateStateIdentifier * option error;
  Authorize : tokenPtr -> PrivateStateIdentifier -> bool * option error
}.

(** What a call to [secureCall] ends in: the returned context, the returned
    error, or a run-time panic (a field read through a [nil] token). *)
Inductive outcome (A : Type) : Type :=
| Ok (a : A)
| Err (e : error)
| Panic.
Arguments Ok {A} a.
Arguments Err {A} e.
Arguments Panic {A}.

(** A record written through [log.Warn]. *)
Inductive logRecord : Type :=
| Warn (msg : string) (ctx : list (string * string)).

(** Lines 126 to 131: the method-level check.  [None] lets the call go on. *)
Definition methodAccessCheck (authToken : tokenPtr) (msg : jsonrpcMessage)
  : option (outcome securityContext) * list logRecord :=
  let elem := SplitN (Method msg) serviceMethodSeparator 2 in
  if negb (List.length elem =? 2)%nat then
    (None, [Warn "unsupported method when performing authorization check"
                 [("method", Method msg)]])
  else
    match authToken with
    | None => (Some Panic, [])
    | Some tok =>
        match verifyAccess (nth 0 elem EmptyString) (nth 1 elem EmptyString) (Authorities tok) with
        | Some err => (Some (Err err), [])
        | None => (None, [])
        end
    end.

(** Lines 132 to 154: the tenant of the call when multitenancy is enabled. *)
Definition authorizePSI {M : Multitenancy} (secCtx : securityContext) (authToken : tokenPtr)
  : outcome securityContext :=
  match ctxIsMultitenant secCtx with
  | Some true =>
      match ctxRequestPrivateStateIdentifier secCtx with
      | None =>
          let '(authorizedPSI, err) := ExtractPSI authToken in
          match err with
          | Some e => Err e
          | None => Ok (WithPrivateStateIdentifier secCtx authorizedPSI)
          end
      | Some requestPSI =>
          let '(isAuthorized, err) := Authorize authToken requestPSI in
          match err with
          | Some e => Err e
          | None =>
              if negb isAuthorized then Err ErrNotAuthorized
              else Ok (WithPrivateStateIdentifier secCtx requestPSI)
          end
      end
  | _ => Ok secCtx
  end.

(** [secureCall]; [now] is the reading of [time.Now()] made by
    [verifyExpiration].  The second component is what was logged. *)
Definition secureCall {M : Multitenancy} (now : ptypes.Time)
           (resolver : securityContextResolver) (msg : jsonrpcMessage)
  : outcome securityContext * list logRecord :=
  match Resolve resolver with
  | None => (Ok Background, [])
  | Some secCtx =>
      match ctxAuthenticationError secCtx with
      | Some err => (Err err, [])
      | None =>
          match CtxPreauthenticatedToken secCtx with
          | None => (Ok secCtx, [])
          | Some authToken =>
              match verifyExpiration now authToken with
              | Some err => (Err err, [])
              | None =>
                  match methodAccessCheck authToken msg with
                  | (Some stop, logged) => (stop, logged)
                  | (None, logged) => (authorizePSI secCtx authToken, logged)
                  end
              end
          end
      end
  end.

(** [securityErrorMessage] *)
Definition securityErrorMessage (forMsg : jsonrpcMessage) (err : error) : jsonrpcMessage :=
  let code := match errors.ErrorCode err with
              | Some ec => ec
              | None => defaultErrorCode
              end in
  mkMessage vsn (ID forMsg) EmptyString []
            (Some (mkJsonError code (errors.Error err))) [].

End rpc.

(** ** Query escaping of Go's [net/url]

    The wire form of a query value and its decoding, as [url.QueryEscape]
    and [url.QueryUnescape] define them (the tests build every identifier
    with [url.Parse] and the values are read back through [Query()]). *)
Module url.

Definition between (lo hi c : ascii) : bool :=
  (N_of_ascii lo <=? N_of_ascii c)%N && (N_of_ascii c <=? N_of_ascii hi)%N.

(** [ishex] *)
Definition ishex (c : ascii) : bool :=
  between "0" "9" c || between "a" "f" c || between "A" "F" c.

(** [unhex] *)
Definition unhex (c : ascii) : N :=
  if between "0" "9" c then (N_of_ascii c - 48)%N
  else if between "a" "f" c then (N_of_ascii c - 97 + 10)%N
  else if between "A" "F" c then (N_of_ascii c - 65 + 10)%N
  else 0%N.

(** [upperhex[n]] *)
Definition upperhex (n : N) : ascii :=
  match String.get (N.to_nat n) "0123456789ABCDEF" with
  | Some c => c
  | None => "0"%char
  end.

(** [shouldEscape(c, encodeQueryComponent)]: only letters, digits and
    [-], [_], [.], [~] are left as they are. *)
Definition shouldEscape (c : ascii) : bool :=
  if between "a" "z" c || between "A" "Z" c || between "0" "9" c then false
  else if (c =? "-")%char || (c =? "_")%char || (c =? ".")%char || (c =? "~")%char then false
  else true.

(** [url.QueryEscape] *)
Fixpoint QueryEscape (s : string) : string :=
  match s with
  | EmptyString => EmptyString
  | String c rest =>
      if shouldEscape c then
        if (c =? " ")%char then String "+" (QueryEscape rest)
        else String "%" (String (upperhex (N_of_ascii c / 16))
                          (String (upperhex (N_of_ascii c mod 16)) (QueryEscape rest)))
      else String c (QueryEscape rest)
  end.

(** [url.QueryUnescape]; [None] is the [EscapeError] of a [%] that is not
    followed by two hexadecimal digits. *)
Fixpoint QueryUnescape (s : string) : option string :=
  match s with
  | EmptyString => Some EmptyString
  | String c rest =>
      if (c =? "%")%char then
        match rest with
        | String h (String l rest') =>
            if ishex h && ishex l then
              option_map (String (ascii_of_N (unhex h * 16 + unhex l))) (QueryUnescape rest')
            else None
        | _ => None
        end
      else if (c =? "+")%char then option_map (String " ") (QueryUnescape rest)
      else option_map (String c) (QueryUnescape rest)
  end.

(** The values [Query()] yields for one key: a value that does not decode
    is dropped. *)
Fixpoint decodeValues (raw : list string) : list string :=
  match raw with
  | [] => []
  | v :: rest =>
      match QueryUnescape v with
      | Some d => d :: decodeValues rest
      | None => decodeValues rest
      end
  end.

End url.

(** ** The contract access decision engine ([plugin/security])

    The package is present through [service_test.go] alone; [match] and
    [IsAuthorized] are modelled from the specification (sections 3, 4.1 and
    4.2) and held against every expectation of that file. *)
Module security.

(** An account is the number its 20 bytes denote; the wildcard of the
    tests, [0x0], and an address left unset are both zero. *)
Definition Address := N.
Definition AnyEOAAddress : Address := 0%N.
Definition isAnyEOAAddress (a : Address) : bool := (a =? AnyEOAAddress)%N.

Inductive ContractVisibility : Type :=
| VisibilityPublic
| VisibilityPrivate
| VisibilityUnrecognized.

Inductive ContractAction : Type :=
| ActionCreate
| ActionRead
| ActionWrite.

(** The action of a grant: one action, or the wildcard. *)
Inductive GrantedAction : Type :=
| Only (a : ContractAction)
| AnyAction.

(** The ask, with the field names of [ContractSecurityAttribute] and
    [AccountStateSecurityAttribute] in the tests.  [PrivateFrom] and
    [Parties] are kept in wire form. *)
Record ContractSecurityAttribute : Type := mkAttribute {
  From : Address;
  To : Address;
  Visibility : ContractVisibility;
  Action : ContractAction;
  PrivateFrom : string;
  Parties : list string
}.

(** A capability identifier (specification, section 3); [privacyKeys] is
    kept in wire form. *)
Record CapabilityIdentifier : Type := mkCapability {
  visibility : ContractVisibility;
  account : Address;
  action : GrantedAction;
  resourceKind : string;
  ownedBy : list Address;
  privacyKeys : list string
}.

Definition visibility_eqb (granted ask : ContractVisibility) : bool :=
  match granted, ask with
  | VisibilityPublic, VisibilityPublic => true
  | VisibilityPrivate, VisibilityPrivate => true
  | _, _ => false
  end.

Definition action_eqb (a b : ContractAction) : bool :=
  match a, b with
  | ActionCreate, ActionCreate => true
  | ActionRead, ActionRead => true
  | ActionWrite, ActionWrite => true
  | _, _ => false
  end.

(** Modelled from the spec: the path-level account of an ask (section 4.1,
    step 1), [from] for create, [to] otherwise. *)
Definition pathAccount (ask : ContractSecurityAttribute) : Address :=
  match Action ask with
  | ActionCreate => From ask
  | _ => To ask
  end.

(** Modelled from the spec: step 1 of section 4.1, the account wildcard on
    either side. *)
Definition accountWildcard (ask : ContractSecurityAttribute) (granted : CapabilityIdentifier) : bool :=
  isAnyEOAAddress (account granted) || isAnyEOAAddress (pathAccount ask).

(** Modelled from the spec: step 2 of section 4.1, the grant's visibility
    and account against those of the ask; an unrecognized visibility is
    compatible with nothing. *)
Definition visibilityCompatible (ask : ContractSecurityAttribute) (granted : CapabilityIdentifier) : bool :=
  visibility_eqb (visibility granted) (Visibility ask)
  && (account granted =? From ask)%N.

(** Modelled from the spec: step 3 of section 4.1, the same action, or the
    wildcard action in the grant. *)
Definition actionCompatible (ask : ContractSecurityAttribute) (granted : CapabilityIdentifier) : bool :=
  match action granted with
  | AnyAction => true
  | Only a => action_eqb a (Action ask)
  end.

(** Modelled from the spec: step 4 of section 4.1, the owner of the contract
    being read or written is among [ownedBy], or [ownedBy] holds the
    wildcard; nothing is asked of a create or of an ask that names no
    owner. *)
Definition ownershipCompatible (ask : ContractSecurityAttribute) (granted : CapabilityIdentifier) : bool :=
  match Action ask with
  | ActionCreate => true
  | _ =>
      isAnyEOAAddress (To ask)
      || existsb (fun owner => isAnyEOAAddress owner || (owner =? To ask)%N) (ownedBy granted)
  end.

Definition member (k : string) (keys : list string) : bool :=
  existsb (String.eqb k) keys.

Definition intersects (xs ys : list string) : bool :=
  existsb (fun x => member x ys) xs.

(** Modelled from the spec: step 5 of section 4.1, for a private ask against
    a grant that names privacy keys, [privateFrom] is one of them (create) or
    [parties] shares one with them (read, write); members are compared
    decoded. *)
Definition privacyKeyCompatible (ask : ContractSecurityAttribute) (granted : CapabilityIdentifier) : bool :=
  match Visibility ask with
  | VisibilityPrivate =>
      match url.decodeValues (privacyKeys granted) with
      | [] => true
      | keys =>
          match Action ask with
          | ActionCreate =>
              match url.QueryUnescape (PrivateFrom ask) with
              | Some k => member k keys
              | None => false
              end
          | _ => intersects (url.decodeValues (Parties ask)) keys
          end
      end
  | _ => true
  end.

(** Modelled from the spec: [match] of [plugin/security] (the
    AuthorityMatcher of section 4.1), whose source file is missing; the steps
    are those of the specification, read so that every assertion of
    [service_test.go] holds:
    - the accounts of grant and ask are compared in step 2
      ([TestMatch_failsWhenAccountsDiffer]);
    - the owner is checked for private asks as well
      ([canNotReadOtherPrivateContracts], [canNotWriteOtherPrivateContracts]),
      not for creates ([canCreatePublicContracts]) nor when the ask names no
      owner ([canReadOwnedPrivateContracts]);
    - a wildcard account in the grant lifts step 2 only: the owner is
      still checked ([TestMatch_whenContractReadPermission_EoaSame]). *)
Definition matches (ask : ContractSecurityAttribute) (granted : CapabilityIdentifier) : bool :=
  (accountWildcard ask granted || visibilityCompatible ask granted)
  && actionCompatible ask granted
  && ownershipCompatible ask granted
  && privacyKeyCompatible ask granted.

(** A granted authority (specification, section 3): a capability
    identifier or a method grant. *)
Inductive GrantedAuthority : Type :=
| Capability (c : CapabilityIdentifier)
| MethodGrant (service method : string).

Record Token : Type := mkToken {
  authorities : list GrantedAuthority;
  expiresAt : option proto.Timestamp
}.

(** Modelled from the spec: the matcher is defined for capability
    identifiers only (section 4.1); a method grant satisfies no ask. *)
Definition satisfies (ask : ContractSecurityAttribute) (g : GrantedAuthority) : bool :=
  match g with
  | Capability c => matches ask c
  | MethodGrant _ _ => false
  end.

(** Modelled from the spec: the search of section 4.2 for one attribute; the
    first authority that satisfies it ends the search. *)
Fixpoint isMatched (attr : ContractSecurityAttribute) (granted : list GrantedAuthority) : bool :=
  match granted with
  | [] => false
  | g :: rest => if satisfies attr g then true else isMatched attr rest
  end.

(** Modelled from the spec: the conjunction of section 4.2 over the
    attributes; the first one left unmatched ends it with [false]. *)
Fixpoint allMatched (granted : list GrantedAuthority) (attributes : list ContractSecurityAttribute) : bool :=
  match attributes with
  | [] => true
  | attr :: rest => if isMatched attr granted then allMatched granted rest else false
  end.

(** Modelled from the spec: [IsAuthorized] of
    [DefaultContractAccessDecisionManager] (section 4.2), whose source file
    is missing: [true] for no attribute, otherwise every attribute against
    the authorities of the token; the error is for infrastructure failures,
    which a decision made in-process does not have. *)
Definition isAuthorized (token : Token) (attributes : list ContractSecurityAttribute)
  : bool * option error :=
  match attributes with
  | [] => (true, None)
  | _ => (allMatched (authorities token) attributes, None)
  end.

End security.

(** ** The inputs of [plugin/security/service_test.go]

    Each identifier [scheme://host/action/kind?owned.eoa=..&from.tm=..] is
    written out by field: scheme, host, action, kind, the [owned.eoa]
    values and the raw [from.tm] values.  For an ask the host is [From], the
    [owned.eoa] value is [To], and the [from.tm] values are [PrivateFrom]
    (create) or [Parties] (read, write). *)
Module service_test.
Import security.

Definition grantedURL (scheme : ContractVisibility) (host : Address) (act : GrantedAction)
           (kind : string) (owned_eoa : list Address) (from_tm : list string)
  : CapabilityIdentifier :=
  mkCapability scheme host act kind owned_eoa from_tm.

Definition askURL (scheme : ContractVisibility) (host : Address) (act : ContractAction)
           (owned_eoa : list Address) (from_tm : list string)
  : ContractSecurityAttribute :=
  mkAttribute host (hd AnyEOAAddress owned_eoa) scheme act
              (match act with ActionCreate => hd EmptyString from_tm | _ => EmptyString end)
              (match act with ActionCreate => [] | _ => from_tm end).

Definition a1b1c1 : Address := 0xa1b1c1%N.
Definition a1a1a1 : Address := 0xa1a1a1%N.
Definition b1b1b1 : Address := 0xb1b1b1%N.
Definition c1c1c1 : Address := 0xc1c1c1%N.
Definition eoa_095e : Address := 0x095e7baea6a6c7c4c2dfeb977efac326af552d87%N.
Definition eoa_9453 : Address := 0x945304eb96065b2a98b57a48a06ae28d285a71b5%N.
Definition eoa_ed9d : Address := 0xed9d02e382b34818e88b88a309c7fe71e65f419d%N.
Definition eoa_a94f : Address := 0xa94f5374fce5edbc8e2a8697c15331677e6ebf0b%N.

(** The key of [TestMatch_whenNotEscaped], as the grant spells it and as the
    ask escapes it. *)
Definition keyBULe : string := "BULeR8JyUWhiuuCMU/HLA0Q5pzkYT+cHII3ZKBey3Bo=".
Definition keyBULe_escaped : string := "BULeR8JyUWhiuuCMU%2FHLA0Q5pzkYT%2BcHII3ZKBey3Bo%3D".
Definition keydLHr_escaped : string := "dLHrFQpbSda0EhJnLonsBwDjks%2Bf724NipfI5zK5RSs%3D".

(** An attribute of the decision manager's test cases. *)
Definition attribute (from to : Address) (v : ContractVisibility) (act : ContractAction)
           (privateFrom : string) (parties : list string) : ContractSecurityAttribute :=
  mkAttribute from to v act privateFrom parties.

(** [runTestCases]: the raw authorities become the token's authorities. *)
Definition run (rawAuthorities : list CapabilityIdentifier)
           (attributes : list ContractSecurityAttribute) : bool * option error :=
  isAuthorized (mkToken (map Capability rawAuthorities) None) attributes.

Definition contracts : string := "contracts".

Definition pubCreate_a1 := grantedURL VisibilityPublic a1a1a1 (Only ActionCreate) contracts [] [].
Definition pubWrite_a1_bc :=
  grantedURL VisibilityPublic a1a1a1 (Only ActionWrite) contracts [b1b1b1; c1c1c1] [].
Definition privGrant (act : ContractAction) (owned : list Address) (keys : list string) :=
  grantedURL VisibilityPrivate a1a1a1 (Only act) contracts owned keys.

End service_test.

(** ** Predicates of the statements *)

(** The disjunction of section 4.3 of the specification, for one authority. *)
Definition grants (service method : string) (a : proto.GrantedAuthority) : Prop :=
  (proto.Service a = "*" /\ proto.Method a = "*")
  \/ (proto.Service a = "*" /\ proto.Method a = method)
  \/ (proto.Service a = service /\ proto.Method a = "*")
  \/ (proto.Service a = service /\ proto.Method a = method).

(** A tenant identifier that holds no separator. *)
Definition noSeparator (psi : string) : Prop :=
  ~ In "/"%char (list_ascii_of_string psi).

(** The shape [decodePSI] expects of an id: a double quote first, a double
    quote last, and a separator somewhere. *)
Definition startsWithQuote (id : list byte) : Prop := hd_error id = Some x22.
Definition endsWithQuote (id : list byte) : Prop := exists body, id = (body ++ [x22])%list.
Definition holdsSeparator (id : list byte) : Prop := In x2f id.

(** A qualified method name without the service/method separator. *)
Definition noUnderscore (method : string) : Prop :=
  ~ In "_"%char (list_ascii_of_string method).

(** ** Sample calls *)
Module calls.
Import rpc.

(** A tenant service that entitles no token to any tenant and reads the
    tenant [PS1] from every token. *)
Definition entitlesNone : Multitenancy :=
  {| ExtractPSI := fun _ => ("PS1", None);
     Authorize := fun _ _ => (false, None) |}.

Definition request (method : string) : jsonrpcMessage :=
  mkMessage vsn (list_byte_of_string "1") method [] None [].

(** A token that expires one second after the epoch and may call anything. *)
Definition earlyToken : proto.PreAuthenticatedAuthenticationToken :=
  proto.mkToken [] (Some (proto.mkTimestamp 1 0)) [proto.mkGrantedAuthority "*" "*" EmptyString].

(** A token that expires 100 seconds after the epoch and holds no authority. *)
Definition bareToken : proto.PreAuthenticatedAuthenticationToken :=
  proto.mkToken [] (Some (proto.mkTimestamp 100 0)) [].

(** A multitenant context: [token] authenticated, [requested] the tenant
    identifier sent with the request. *)
Definition multitenantContext (token : proto.PreAuthenticatedAuthenticationToken)
           (requested : option PrivateStateIdentifier) : securityContext :=
  mkSecurityContext None (Some (Some token)) (Some true) requested None.


(** A token that expires 100 seconds after the epoch and may call anything. *)
Definition openToken : proto.PreAuthenticatedAuthenticationToken :=
  proto.mkToken [] (Some (proto.mkTimestamp 100 0)) [proto.mkGrantedAuthority "*" "*" EmptyString].

(** A context without multitenancy. *)
Definition plainContext (token : proto.PreAuthenticatedAuthenticationToken) : securityContext :=
  mkSecurityContext None (Some (Some token)) None None None.

End calls.

(** ** Grants and asks of the statements about the matcher *)
Module shapes.
Import security.

(** The grant with another visibility, or with other owners. *)
Definition withVisibility (g : CapabilityIdentifier) (v : ContractVisibility) : CapabilityIdentifier :=
  mkCapability v (account g) (action g) (resourceKind g) (ownedBy g) (privacyKeys g).

Definition withOwnedBy (g : CapabilityIdentifier) (owners : list Address) : CapabilityIdentifier :=
  mkCapability (visibility g) (account g) (action g) (resourceKind g) owners (privacyKeys g).

(** Every check of the matcher but the one on privacy keys. *)
Definition otherChecks (ask : ContractSecurityAttribute) (granted : CapabilityIdentifier) : bool :=
  (accountWildcard ask granted || visibilityCompatible ask granted)
  && actionCompatible ask granted
  && ownershipCompatible ask granted.

(** What step 5 asks of the decoded keys, as a proposition. *)
Definition keysAgree (ask : ContractSecurityAttribute) (granted : CapabilityIdentifier) : Prop :=
  match Action ask with
  | ActionCreate =>
      exists k, url.QueryUnescape (PrivateFrom ask) = Some k
                /\ In k (url.decodeValues (privacyKeys granted))
  | _ =>
      exists k, In k (url.decodeValues (Parties ask))
                /\ In k (url.decodeValues (privacyKeys granted))
  end.


(** The key an ask presents to step 5: [privateFrom] for a create, a member
    of [parties] otherwise. *)
Definition presents (ask : ContractSecurityAttribute) (key : string) : Prop :=
  match Action ask with
  | ActionCreate => PrivateFrom ask = key
  | _ => In key (Parties ask)
  end.

(** Section 4.1 read to the letter on one point: a wildcard account on
    either side lifts the ownership check as well. *)
Definition matchesLiftingOwnership (ask : ContractSecurityAttribute) (granted : CapabilityIdentifier) : bool :=
  (accountWildcard ask granted || visibilityCompatible ask granted)
  && actionCompatible ask granted
  && (accountWildcard ask granted || ownershipCompatible ask granted)
  && privacyKeyCompatible ask granted.

End shapes.


(** ** The members of a grant as they arrive in its query *)
Module wire.
Import security.



(** Modelled from the spec: the [ownedBy] members of a grant, read from the
    raw values its query carries (sections 3 and 4.1): every value is
    query-unescaped as the privacy keys are, a value that does not decode is
    dropped, and the decoded text is read as an address.  How a text is read
    as an address is left to [readAddress]. *)
Definition readOwners (readAddress : string -> Address) (raw : list string) : list Address :=
  map readAddress (url.decodeValues raw).

(** A reader for the examples: the number the hexadecimal digits after
    [0x] denote. *)
Definition hexDigits (s : string) : N :=
  fold_left (fun acc c => (acc * 16 + url.unhex c)%N) (list_ascii_of_string s) 0%N.

Definition hexAddress (s : string) : Address :=
  match s with
  | String "0" (String "x" digits) => hexDigits digits
  | _ => hexDigits s
  end.

End wire.

(** ** [rpc/security.go]: what is read from a request and from an endpoint *)
Module transport.
Import rpc.

Definition HttpAuthorizationHeader : string := "Authorization".
Definition HttpPrivateStateIdentifierHeader : string := "GoQuorum-PSI".
Definition QueryPrivateStateIdentifierParamName : string := "PSI".
Definition EnvVarPrivateStateIdentifier : string := "GOQUORUM_PSI".

(** An [*http.Request] as the middleware reads it: [req.Header.Get(key)] and
    [req.URL.Query().Get(key)], each the empty string for a key that is
    absent. *)
Record Request : Type := mkRequest {
  Header_Get : string -> string;
  URL_Query_Get : string -> string
}.

(** [extractToken] *)
Definition extractToken (req : Request) : string * bool :=
  let token := Header_Get req HttpAuthorizationHeader in
  (token, negb (token =? EmptyString)%string).

(** [extractPSI] *)
Definition extractPSI (r : Request) : PrivateStateIdentifier * bool :=
  let psi := Header_Get r HttpPrivateStateIdentifierHeader in
  let psi := if (String.length psi =? 0)%nat
             then URL_Query_Get r QueryPrivateStateIdentifierParamName
             else psi in
  if (String.length psi =? 0)%nat then (DefaultPrivateStateIdentifier, false)
  else (psi, true).

(** A [securityContextKey]. *)
Definition securityContextKey := string.
Definition CtxPSIProvider : securityContextKey := "PSI_PROVIDER".
Definition CtxCredentialsProvider : securityContextKey := "CREDENTIALS_PROVIDER".

(** A [PSIProviderFunc]; the context it is handed, which the provider built
    by [resolvePSIProvider] does not look at, is not kept. *)
Definition PSIProviderFunc := unit -> PrivateStateIdentifier * option error.

(** A value stored in a context: a tenant provider, or anything else. *)
Inductive contextValue : Type :=
| psiProvider (f : PSIProviderFunc)
| otherValue (text : string).

(** A [context.Context], as [ctx.Value(key)] shows it. *)
Definition Context := securityContextKey -> option contextValue.

(** [context.WithValue(ctx, key, val)] *)
Definition WithValue (ctx : Context) (key : securityContextKey) (val : contextValue) : Context :=
  fun k => if (k =? key)%string then Some val else ctx k.

(** A parsed [*url.URL]: its scheme and [Query().Get(key)]. *)
Record URL : Type := mkURL {
  Scheme : string;
  Query_Get : string -> string
}.

(** [url.Parse] ([None] for an error) and [os.Getenv]. *)
Class Host : Type := {
  url_Parse : string -> option URL;
  os_Getenv : string -> string
}.

(** The schemes of the [switch] of [resolvePSIProvider]. *)
Definition networkScheme (scheme : string) : bool :=
  (scheme =? "http")%string || (scheme =? "https")%string
  || (scheme =? "ws")%string || (scheme =? "wss")%string.

(** [resolvePSIProvider] *)
Definition resolvePSIProvider {H : Host} (ctx : Context) (endpoint : string) : Context :=
  match url_Parse endpoint with
  | None => ctx
  | Some parsedUrl =>
      let rawPSI := if networkScheme (Scheme parsedUrl)
                    then Query_Get parsedUrl QueryPrivateStateIdentifierParamName
                    else EmptyString in
      let value := os_Getenv EnvVarPrivateStateIdentifier in
      let rawPSI := if (0 <? String.length value)%nat then value else rawPSI in
      if (0 <? String.length rawPSI)%nat then
        WithValue ctx CtxPSIProvider (psiProvider (fun _ => (rawPSI, None)))
      else ctx
  end.

End transport.

(** ** [plugin/service.go]: starting and stopping the plugins *)
Module plugin.

(** A [managedPlugin], as [Start] and [Stop] of the manager use it: what
    its own [Start()] and [Stop()] return ([None] for [nil]); each is called
    at most once by either function. *)
Record managedPlugin : Type := mkPlugin {
  pluginName : string;
  Start_ : option error;
  Stop_ : option error
}.

(** What the manager does that can be seen from outside. *)
Inductive event : Type :=
| logInfo (msg : string) (count : nat)
| logStopped (msg : string) (allErrors : list error)
| started (p : managedPlugin)
| stopped (p : managedPlugin).

(** The first loop of [PluginManager.Start]: the plugins are started in
    the order the [range] visits them, up to the first failure. *)
Fixpoint startLoop (plugins : list managedPlugin)
  : option error * list managedPlugin * list event :=
  match plugins with
  | [] => (None, [], [])
  | p :: rest =>
      match Start_ p with
      | Some err => (Some err, [], [started p])
      | None =>
          let '(err, startedPlugins, events) := startLoop rest in
          (err, p :: startedPlugins, started p :: events)
      end
  end.

(** [PluginManager.Start]; [plugins] are the values of [s.plugins] in the
    order the [range] visits them. *)
Definition Start (plugins : list managedPlugin) : option error * list event :=
  let '(err, startedPlugins, events) := startLoop plugins in
  let events := logInfo "Starting all plugins" (List.length plugins) :: events in
  match err with
  | Some e => (Some e, (events ++ map stopped startedPlugins)%list)
  | None => (None, events)
  end.

(** The loop of [PluginManager.Stop]: every plugin is stopped, the errors
    are collected. *)
Fixpoint stopLoop (plugins : list managedPlugin) : list error * list event :=
  match plugins with
  | [] => ([], [])
  | p :: rest =>
      let '(allErrors, events) := stopLoop rest in
      match Stop_ p with
      | Some err => (err :: allErrors, stopped p :: events)
      | None => (allErrors, stopped p :: events)
      end
  end.

(** The errors of the plugins that do not stop, in the order given. *)
Definition stopErrors (plugins : list managedPlugin) : list error :=
  flat_map (fun p => match Stop_ p with Some err => [err] | None => [] end) plugins.

(** [fmt.Sprintf("%s", allErrors)] for a slice of errors. *)
Definition showErrors (allErrors : list error) : string :=
  "[" ++ String.concat " " (map errors.Error allErrors) ++ "]".

(** [PluginManager.Stop] *)
Definition Stop (plugins : list managedPlugin) : option error * list event :=
  let '(allErrors, events) := stopLoop plugins in
  let events := (logInfo "Stopping all plugins" (List.length plugins) :: events
                 ++ [logStopped "All plugins stopped" allErrors])%list in
  if (List.length allErrors =? 0)%nat then (None, events)
  else (Some (errorString (showErrors allErrors)), events).

End plugin.

(** ** Sample hosts, endpoints and plugins *)
Module samples.
Import rpc transport plugin.

(** The query of [http://node:8545/?PSI=PS1]. *)
Definition queryPS1 (key : string) : string :=
  if (key =? "PSI")%string then "PS1" else EmptyString.

(** A host that parses two endpoints, an HTTP one naming the tenant [PS1]
    and the path of an IPC socket, and whose environment sets [GOQUORUM_PSI]
    to [env]. *)
Definition hostWith (env : string) : Host :=
  {| url_Parse := fun endpoint =>
       if (endpoint =? "http://node:8545/?PSI=PS1")%string
       then Some (mkURL "http" queryPS1)
       else if (endpoint =? "/tmp/geth.ipc")%string
            then Some (mkURL EmptyString queryPS1)
            else None;
     os_Getenv := fun name =>
       if (name =? "GOQUORUM_PSI")%string then env else EmptyString |}.

(** A context that holds a credentials provider only. *)
Definition dialContext : Context :=
  WithValue (fun _ => None) CtxCredentialsProvider (otherValue "credentials").

(** A request with the given tenant header and tenant query parameter. *)
Definition requestWith (header query : string) : Request :=
  mkRequest (fun key => if (key =? "GoQuorum-PSI")%string then header else EmptyString)
            (fun key => if (key =? "PSI")%string then query else EmptyString).

Definition security : managedPlugin := mkPlugin "security" None None.
Definition account : managedPlugin :=
  mkPlugin "account" None (Some (errorString "account: busy")).
Definition helloworld : managedPlugin :=
  mkPlugin "helloworld" (Some (errorString "helloworld: no binary")) None.

End samples.

(** * Token expiry and method-level access *)
Section MiddlewareChecks.
Import rpc.

Lemma Timestamp_nil_invalid :
  snd (ptypes.Timestamp_ None) = Some (errorString "timestamp: nil Timestamp").
Proof. reflexivity. Qed.

(** A token whose expiry is a valid timestamp passes exactly while the
    clock is before it. *)
Lemma verifyExpiration_valid_timestamp now tok ts :
  proto.ExpiredAt tok = Some ts ->
  ptypes.validateTimestamp (Some ts) = None ->
  verifyExpiration now (Some tok)
  = if now <? ptypes.Unix (proto.Seconds ts) (proto.Nanos ts) then None
    else Some (securityError "token expired").
Proof.
  intros Hexp Hvalid. unfold verifyExpiration, ptypes.Timestamp_.
  rewrite Hexp, Hvalid. reflexivity.
Qed.

(** C1 (as amended): [verifyExpiration] returns [nil] when there is no token
    at all; a token that is present and carries no [expiresAt] is not
    perpetually valid: at every time it fails with the invalid-timestamp
    error. *)
Theorem verifyExpiration_without_expiry :
  forall (now : ptypes.Time) (raw : list byte) (granted : list proto.GrantedAuthority),
    verifyExpiration now None = None
    /\ verifyExpiration now (Some (proto.mkToken raw None granted))
       = Some (errorString "invalid timestamp in token: timestamp: nil Timestamp").
Proof. intros now raw granted. split; reflexivity. Qed.

(** C1, the claim as stated fails: a token without [expiresAt] does not
    pass the expiry check. *)
Lemma verifyExpiration_absent_expiry_rejected :
  proto.ExpiredAt (proto.mkToken [] None []) = None
  /\ verifyExpiration 0 (Some (proto.mkToken [] None [])) <> None.
Proof. split; [reflexivity | discriminate]. Qed.

Lemma authorityGrants_iff service method a :
  authorityGrants service method a = true <-> grants service method a.
Proof.
  unfold authorityGrants, grants.
  destruct (String.eqb_spec (proto.Service a) "*") as [Hs | Hs];
    destruct (String.eqb_spec (proto.Method a) "*") as [Hm | Hm];
    destruct (String.eqb_spec (proto.Service a) service) as [Hs' | Hs'];
    destruct (String.eqb_spec (proto.Method a) method) as [Hm' | Hm'];
    cbn; split; intros H; try reflexivity; try discriminate; try tauto.
Qed.

Lemma verifyAccess_nil_iff service method authorities :
  verifyAccess service method authorities = None
  <-> Exists (grants service method) authorities.
Proof.
  induction authorities as [| a rest IH]; cbn.
  - split; [discriminate | intros H; inversion H].
  - destruct (authorityGrants service method a) eqn:Ha.
    + split; [intros _ | reflexivity].
      apply Exists_cons_hd, authorityGrants_iff, Ha.
    + rewrite IH. split; [apply Exists_cons_tl |].
      intros H. inversion H as [x l Hx | x l Hl]; subst; [| exact Hl].
      apply authorityGrants_iff in Hx. congruence.
Qed.

Lemma verifyAccess_denial service method authorities :
  verifyAccess service method authorities = None
  \/ verifyAccess service method authorities
     = Some (securityError (service ++ serviceMethodSeparator ++ method ++ " - access denied")).
Proof.
  induction authorities as [| a rest IH]; cbn; [right; reflexivity |].
  destruct (authorityGrants service method a); [left; reflexivity | exact IH].
Qed.

(** C6: [verifyAccess] returns [nil] exactly when some authority [(s, m)] of
    the list has [s = "*"] and [m = "*"], or [s = "*"] and [m = method], or
    [s = service] and [m = "*"], or [s = service] and [m = method]; when none
    has, the result is the security error whose message is the service and
    the method joined by the separator, followed by " - access denied". *)
Theorem verifyAccess_spec :
  forall (service method : string) (authorities : list proto.GrantedAuthority),
    (verifyAccess service method authorities = None
     <-> Exists (fun a =>
                   (proto.Service a = "*" /\ proto.Method a = "*")
                   \/ (proto.Service a = "*" /\ proto.Method a = method)
                   \/ (proto.Service a = service /\ proto.Method a = "*")
                   \/ (proto.Service a = service /\ proto.Method a = method)) authorities)
    /\ (~ Exists (grants service method) authorities ->
        verifyAccess service method authorities
        = Some (securityError (service ++ "_" ++ method ++ " - access denied"))).
Proof.
  intros service method authorities. split.
  - apply verifyAccess_nil_iff.
  - intros Hnone. destruct (verifyAccess_denial service method authorities) as [H | H].
    + apply verifyAccess_nil_iff in H. contradiction.
    + exact H.
Qed.

Example verifyAccess_wildcards :
  (forall service method, verifyAccess service method [proto.mkGrantedAuthority "*" "*" ""] = None)
  /\ verifyAccess "eth" "getBalance" [proto.mkGrantedAuthority "eth" "*" ""] = None
  /\ verifyAccess "net" "version" [proto.mkGrantedAuthority "eth" "*" ""]
     = Some (securityError "net_version - access denied").
Proof. repeat split; reflexivity. Qed.

(** C9: the reply built by [securityErrorMessage] carries the ID of the
    request it answers, whatever the error; for a security denial its code
    is -32001, which is not the default code. *)
Theorem securityErrorMessage_id_and_code :
  forall (forMsg : jsonrpcMessage) (err : error) (message : string),
    ID (securityErrorMessage forMsg err) = ID forMsg
    /\ rpc.Error (securityErrorMessage forMsg (securityError message))
       = Some (mkJsonError (-32001) message)
    /\ -32001 <> defaultErrorCode
    /\ Version (securityErrorMessage forMsg err) = vsn.
Proof.
  intros forMsg err message. repeat split. unfold defaultErrorCode. lia.
Qed.

Lemma securityErrorMessage_default_code forMsg err :
  errors.ErrorCode err = None ->
  rpc.Error (securityErrorMessage forMsg err)
  = Some (mkJsonError defaultErrorCode (errors.Error err)).
Proof. intros H. unfold securityErrorMessage. rewrite H. reflexivity. Qed.

End MiddlewareChecks.

(** * Tagging a correlation id with the tenant identifier *)
Section PSICodec.
Import rpc.
Local Open Scope list_scope.

Lemma list_byte_of_string_length s :
  List.length (list_byte_of_string s) = String.length s.
Proof.
  unfold list_byte_of_string. rewrite length_map.
  induction s as [| c s IH]; cbn; [reflexivity | now rewrite IH].
Qed.

Lemma string_of_list_byte_cons b l :
  string_of_list_byte (b :: l) = String (ascii_of_byte b) (string_of_list_byte l).
Proof. reflexivity. Qed.

Lemma string_of_list_byte_app l1 l2 :
  string_of_list_byte (l1 ++ l2)
  = (string_of_list_byte l1 ++ string_of_list_byte l2)%string.
Proof.
  induction l1 as [| b l1 IH]; [reflexivity |].
  cbn [app]. rewrite !string_of_list_byte_cons, IH. reflexivity.
Qed.

Lemma store_head b x l : store (x :: l) 0 b = b :: l.
Proof. reflexivity. Qed.

Lemma store_last b l x : store (l ++ [x]) (List.length l) b = l ++ [b].
Proof. induction l as [| y l IH]; cbn; [reflexivity | now rewrite IH]. Qed.

(** Writing [src] over the middle of [pre ++ old ++ post]. *)
Lemma copy_middle pre old post src hi :
  List.length old = List.length src ->
  (List.length pre + List.length src <= hi)%nat ->
  copy (pre ++ old ++ post) (List.length pre) hi src = pre ++ src ++ post.
Proof.
  intros Hlen Hhi. unfold copy.
  rewrite Nat.min_r by lia.
  rewrite firstn_app, firstn_all, Nat.sub_diag, firstn_O, app_nil_r.
  rewrite firstn_all. f_equal. f_equal.
  rewrite skipn_app.
  replace (List.length pre + List.length src - List.length pre)%nat
    with (List.length old) by lia.
  rewrite skipn_all2 by lia. cbn [app].
  rewrite skipn_app, skipn_all, Nat.sub_diag. reflexivity.
Qed.

(** The fresh slice of [encodePSI], cut where the writes fall. *)
Lemma make_layout p i :
  make (i + p + 3) = [x00] ++ repeat x00 p ++ repeat x00 (S i) ++ [x00].
Proof.
  unfold make. replace (i + p + 3)%nat with (1 + (p + (S i + 1)))%nat by lia.
  rewrite !repeat_app. reflexivity.
Qed.

(** [encodePSI] in closed form: quote, identifier, separator, counter, quote. *)
Lemma encodePSI_tagged id psi :
  psi <> EmptyString ->
  encodePSI id psi = x22 :: list_byte_of_string psi ++ x2f :: id ++ [x22].
Proof.
  intros Hpsi. unfold encodePSI.
  destruct (String.length psi =? 0)%nat eqn:Hlen.
  { apply Nat.eqb_eq in Hlen. destruct psi; [contradiction | discriminate]. }
  cbv zeta.
  pose proof (list_byte_of_string_length psi) as Hp.
  set (P := list_byte_of_string psi) in *. rewrite <- Hp.
  set (Zp := repeat x00 (List.length P)).
  set (Zi := repeat x00 (S (List.length id))).
  assert (HZp : List.length Zp = List.length P) by apply repeat_length.
  assert (HZi : List.length Zi = S (List.length id)) by apply repeat_length.
  rewrite make_layout. fold Zp Zi.
  cbn [app]. rewrite store_head.
  replace (List.length id + List.length P + 3 - 1)%nat
    with (List.length (x22 :: Zp ++ Zi))
    by (cbn [List.length]; rewrite length_app; lia).
  replace (x22 :: Zp ++ Zi ++ [x00]) with ((x22 :: Zp ++ Zi) ++ [x00])
    by (cbn [app]; now rewrite <- app_assoc).
  rewrite store_last.
  replace ((x22 :: Zp ++ Zi) ++ [x22]) with ([x22] ++ Zp ++ (Zi ++ [x22]))
    by (cbn [app]; now rewrite <- app_assoc).
  change 1%nat with (List.length [x22]) at 1.
  rewrite copy_middle by (cbn [List.length]; lia).
  replace ([x22] ++ P ++ Zi ++ [x22]) with ((x22 :: P) ++ Zi ++ [x22]) by reflexivity.
  replace (List.length P + 1)%nat with (List.length (x22 :: P)) by (cbn [List.length]; lia).
  rewrite copy_middle.
  - reflexivity.
  - rewrite HZi. reflexivity.
  - cbn [List.length app list_byte_of_string]. cbn. lia.
Qed.

Lemma string_of_list_byte_encoded id psi :
  string_of_list_byte (x22 :: list_byte_of_string psi ++ x2f :: id ++ [x22])
  = (String "034" psi ++ String "/" (string_of_list_byte id ++ dquote))%string.
Proof.
  rewrite string_of_list_byte_cons, string_of_list_byte_app, string_of_list_byte_cons,
    string_of_list_byte_app, string_of_list_byte_of_string.
  reflexivity.
Qed.

Lemma substring_all t : substring 0 (String.length t) t = t.
Proof. induction t as [| c t IH]; cbn; [reflexivity | now rewrite IH]. Qed.

Lemma substring_skip s t :
  substring (String.length s) (String.length t) (s ++ t)%string = t.
Proof. induction s as [| c s IH]; cbn; [apply substring_all | exact IH]. Qed.

Lemma length_string_app s t :
  String.length (s ++ t)%string = (String.length s + String.length t)%nat.
Proof. induction s as [| c s IH]; cbn; [reflexivity | now rewrite IH]. Qed.

Lemma string_app_assoc s t u : ((s ++ t) ++ u = s ++ (t ++ u))%string.
Proof. induction s as [| c s IH]; cbn; [reflexivity | now rewrite IH]. Qed.

Lemma HasSuffix_app s t : HasSuffix (s ++ t)%string t = true.
Proof.
  unfold HasSuffix. rewrite length_string_app.
  replace (String.length s + String.length t - String.length t)%nat
    with (String.length s) by lia.
  rewrite substring_skip, String.eqb_refl, andb_true_r.
  apply Nat.leb_le. lia.
Qed.

Lemma prefix_char c a rest :
  String.prefix (String c EmptyString) (String a rest) = Ascii.eqb c a.
Proof.
  cbn. destruct (ascii_dec c a) as [-> | Hne].
  - rewrite Ascii.eqb_refl. now destruct rest.
  - symmetry. now apply Ascii.eqb_neq.
Qed.

(** The first separator of a string whose head holds none. *)
Lemma Index_first_separator c pre rest :
  ~ In c (list_ascii_of_string pre) ->
  Index (pre ++ String c rest)%string (String c EmptyString) = Some (String.length pre).
Proof.
  induction pre as [| a pre IH]; intros Hnot.
  - cbn [append Index]. rewrite prefix_char, Ascii.eqb_refl. reflexivity.
  - cbn [append Index]. rewrite prefix_char.
    destruct (Ascii.eqb_spec c a) as [-> | Hne].
    + exfalso. apply Hnot. now left.
    + rewrite IH; [reflexivity |]. intros Hin. apply Hnot. now right.
Qed.

Lemma Index_bound s t k : Index s t = Some k -> (k <= String.length s)%nat.
Proof.
  revert k. induction s as [| a s IH]; intros k; cbn [Index].
  - destruct (String.prefix t EmptyString); [| discriminate].
    intros [= <-]. cbn. lia.
  - destruct (String.prefix t (String a s)).
    + intros [= <-]. lia.
    + destruct (Index s t) as [m |]; [| discriminate].
      intros [= <-]. cbn. specialize (IH m eq_refl). lia.
Qed.

Lemma slice_body pre body post :
  slice (pre :: body ++ post) 1 (S (List.length body)) = body.
Proof.
  unfold slice. cbn [skipn]. rewrite Nat.sub_succ, Nat.sub_0_r.
  now rewrite firstn_app, firstn_all, Nat.sub_diag, firstn_O, app_nil_r.
Qed.

(** The round trip, for an identifier that holds no separator. *)
Lemma decodePSI_encodePSI_roundtrip id psi :
  psi <> EmptyString -> noSeparator psi -> decodePSI (encodePSI id psi) = psi.
Proof.
  intros Hpsi Hsep. rewrite (encodePSI_tagged id psi Hpsi).
  unfold decodePSI. rewrite string_of_list_byte_encoded.
  assert (Hpre : HasPrefix (String "034" psi ++ String "/" (string_of_list_byte id ++ dquote))
                           dquote = true).
  { unfold HasPrefix, dquote. cbn [append]. now rewrite prefix_char. }
  assert (Hsuf : HasSuffix (String "034" psi ++ String "/" (string_of_list_byte id ++ dquote))
                           dquote = true).
  { change (String "/" (string_of_list_byte id ++ dquote))
      with (String "/" (string_of_list_byte id) ++ dquote)%string.
    rewrite <- string_app_assoc. apply HasSuffix_app. }
  rewrite Hpre, Hsuf. cbn [negb orb].
  rewrite (Index_first_separator "/" (String "034" psi)).
  - cbn [String.length]. rewrite <- (list_byte_of_string_length psi).
    rewrite slice_body. apply string_of_list_byte_of_string.
  - cbn [list_ascii_of_string]. intros [Hq | Hin]; [discriminate | exact (Hsep Hin)].
Qed.

(** Reading the shape of an id back from the tests [decodePSI] makes. *)
Lemma HasPrefix_quote id :
  HasPrefix (string_of_list_byte id) dquote = true -> startsWithQuote id.
Proof.
  destruct id as [| b l]; [discriminate |].
  rewrite string_of_list_byte_cons. unfold HasPrefix, dquote, startsWithQuote.
  rewrite prefix_char. intros H. apply Ascii.eqb_eq in H. cbn.
  rewrite <- (byte_of_ascii_of_byte b), <- H. reflexivity.
Qed.

Lemma substring_split s n m :
  (n + m = String.length s)%nat ->
  s = (substring 0 n s ++ substring n m s)%string.
Proof.
  revert n. induction s as [| c s IH]; intros n Hlen.
  - cbn in Hlen. assert (n = 0%nat) by lia. assert (m = 0%nat) by lia. now subst.
  - destruct n as [| n].
    + cbn in Hlen. subst m. cbn [substring append]. now rewrite substring_all.
    + cbn [substring append]. f_equal. apply IH. cbn in Hlen. lia.
Qed.

Lemma HasSuffix_split s t :
  HasSuffix s t = true -> exists s', s = (s' ++ t)%string.
Proof.
  unfold HasSuffix. intros H. apply andb_prop in H as [Hle Heq].
  apply Nat.leb_le in Hle. apply String.eqb_eq in Heq.
  exists (substring 0 (String.length s - String.length t) s).
  rewrite (substring_split s (String.length s - String.length t) (String.length t)) at 1
    by lia.
  now rewrite Heq.
Qed.

Lemma list_byte_of_string_app s t :
  list_byte_of_string (s ++ t)%string = list_byte_of_string s ++ list_byte_of_string t.
Proof.
  unfold list_byte_of_string.
  induction s as [| c s IH]; cbn; [reflexivity | now rewrite IH].
Qed.

Lemma HasSuffix_quote id :
  HasSuffix (string_of_list_byte id) dquote = true -> endsWithQuote id.
Proof.
  intros H. apply HasSuffix_split in H as [s' Hs'].
  exists (list_byte_of_string s').
  rewrite <- (list_byte_of_string_of_list_byte id), Hs', list_byte_of_string_app.
  reflexivity.
Qed.

Lemma Index_separator id k :
  Index (string_of_list_byte id) "/" = Some k -> holdsSeparator id.
Proof.
  revert k. induction id as [| b l IH]; intros k.
  - discriminate.
  - rewrite string_of_list_byte_cons. cbn [Index]. rewrite prefix_char.
    destruct (Ascii.eqb_spec "/" (ascii_of_byte b)) as [Heq | Hne].
    + intros _. left. rewrite <- (byte_of_ascii_of_byte b), <- Heq. reflexivity.
    + destruct (Index (string_of_list_byte l) "/") as [m |] eqn:Hm; [| discriminate].
      intros _. right. exact (IH m eq_refl).
Qed.

Lemma decodePSI_default id :
  ~ startsWithQuote id \/ ~ endsWithQuote id \/ ~ holdsSeparator id ->
  decodePSI id = DefaultPrivateStateIdentifier.
Proof.
  intros Hshape. unfold decodePSI.
  destruct (HasPrefix (string_of_list_byte id) dquote) eqn:Hpre; [| reflexivity].
  destruct (HasSuffix (string_of_list_byte id) dquote) eqn:Hsuf; [| reflexivity].
  cbn [negb orb].
  destruct (Index (string_of_list_byte id) "/") as [k |] eqn:Hk; [| reflexivity].
  exfalso. destruct Hshape as [H | [H | H]].
  - exact (H (HasPrefix_quote id Hpre)).
  - exact (H (HasSuffix_quote id Hsuf)).
  - exact (H (Index_separator id k Hk)).
Qed.

(** The slice taken by [decodePSI] lies within the id. *)
Lemma decodePSI_slice_in_bounds id sepIdx :
  HasPrefix (string_of_list_byte id) dquote = true ->
  Index (string_of_list_byte id) "/" = Some sepIdx ->
  (1 <= sepIdx <= List.length id)%nat.
Proof.
  intros Hpre Hidx. split.
  - destruct id as [| b l]; [discriminate |].
    apply HasPrefix_quote in Hpre. injection Hpre as ->.
    destruct sepIdx; [| lia].
    rewrite string_of_list_byte_cons in Hidx. cbn [Index] in Hidx.
    rewrite prefix_char in Hidx. cbn in Hidx.
    destruct (Index (string_of_list_byte l) "/"); discriminate Hidx.
  - apply Index_bound in Hidx.
    rewrite <- (list_byte_of_string_length (string_of_list_byte id)) in Hidx.
    now rewrite list_byte_of_string_of_list_byte in Hidx.
Qed.

(** C5 (as amended): for every message id and every non-empty tenant
    identifier that holds no separator, [decodePSI (encodePSI id psi)] is
    [psi]; [encodePSI id ""] is [id]; and [decodePSI] of an id that does not
    start with a double quote, or does not end with one, or holds no
    separator, is the default identifier. *)
Theorem decodePSI_encodePSI :
  forall (id : list byte) (psi : PrivateStateIdentifier),
    psi <> EmptyString ->
    noSeparator psi ->
    decodePSI (encodePSI id psi) = psi
    /\ encodePSI id EmptyString = id
    /\ (forall id' : list byte,
          ~ startsWithQuote id' \/ ~ endsWithQuote id' \/ ~ holdsSeparator id' ->
          decodePSI id' = DefaultPrivateStateIdentifier).
Proof.
  intros id psi Hpsi Hsep. split; [| split].
  - now apply decodePSI_encodePSI_roundtrip.
  - reflexivity.
  - apply decodePSI_default.
Qed.

Lemma decodePSI_encodePSI_tenantA :
  decodePSI (encodePSI (list_byte_of_string "32") "tenantA") = "tenantA"
  /\ encodePSI (list_byte_of_string "32") EmptyString = list_byte_of_string "32"
  /\ (forall id' : list byte,
        ~ startsWithQuote id' \/ ~ endsWithQuote id' \/ ~ holdsSeparator id' ->
        decodePSI id' = DefaultPrivateStateIdentifier).
Proof.
  apply (decodePSI_encodePSI (list_byte_of_string "32") "tenantA").
  - discriminate.
  - unfold noSeparator. cbn. intuition discriminate.
Defined.

(** C5, the claim as stated fails: a tenant identifier that holds the
    separator is cut at its first separator. *)
Lemma decodePSI_encodePSI_cut_at_separator :
  "a/b" <> EmptyString
  /\ decodePSI (encodePSI (list_byte_of_string "1") "a/b") = "a"
  /\ decodePSI (encodePSI (list_byte_of_string "1") "a/b") <> "a/b".
Proof. repeat split; [discriminate | discriminate]. Qed.

End PSICodec.

(** * The call authorizer *)
Section CallAuthorizer.
Import rpc.
Context {M : Multitenancy}.

Lemma Index_absent c s :
  ~ In c (list_ascii_of_string s) -> Index s (String c EmptyString) = None.
Proof.
  induction s as [| a s IH]; intros Hnot; [reflexivity |].
  cbn [Index]. rewrite prefix_char.
  destruct (Ascii.eqb_spec c a) as [-> | Hne].
  - exfalso. apply Hnot. now left.
  - rewrite IH; [reflexivity |]. intros Hin. apply Hnot. now right.
Qed.

Lemma SplitN_without_separator method :
  noUnderscore method -> SplitN method serviceMethodSeparator 2 = [method].
Proof.
  intros Hnot. unfold SplitN, genSplit, serviceMethodSeparator.
  now rewrite Index_absent.
Qed.

(** Whatever the name, [SplitN] with [n = 2] yields one or two pieces. *)
Lemma SplitN_two_pieces method :
  SplitN method serviceMethodSeparator 2 = [method]
  \/ exists service name, SplitN method serviceMethodSeparator 2 = [service; name].
Proof.
  unfold SplitN, genSplit.
  destruct (Index method serviceMethodSeparator) as [m |]; [right | left; reflexivity].
  eauto.
Qed.

Lemma methodAccessCheck_unsupported authToken msg :
  noUnderscore (Method msg) ->
  methodAccessCheck authToken msg
  = (None, [Warn "unsupported method when performing authorization check"
                 [("method", Method msg)]]).
Proof.
  intros Hnot. unfold methodAccessCheck.
  now rewrite SplitN_without_separator.
Qed.

(** The call, once the context, the token and its expiry are settled. *)
Lemma secureCall_checked now resolver msg secCtx authToken :
  Resolve resolver = Some secCtx ->
  ctxAuthenticationError secCtx = None ->
  CtxPreauthenticatedToken secCtx = Some authToken ->
  verifyExpiration now authToken = None ->
  secureCall now resolver msg
  = match methodAccessCheck authToken msg with
    | (Some stop, logged) => (stop, logged)
    | (None, logged) => (authorizePSI secCtx authToken, logged)
    end.
Proof.
  intros Hres Herr Htok Hexp. unfold secureCall.
  now rewrite Hres, Herr, Htok, Hexp.
Qed.

(** No context: the call is let through with the background context. *)
Lemma secureCall_no_context now msg :
  secureCall now (mkResolver None) msg = (Ok Background, []).
Proof. reflexivity. Qed.

(** A recorded authentication failure is returned as it is. *)
Lemma secureCall_authentication_error now resolver msg secCtx err :
  Resolve resolver = Some secCtx ->
  ctxAuthenticationError secCtx = Some err ->
  secureCall now resolver msg = (Err err, []).
Proof. intros Hres Herr. unfold secureCall. now rewrite Hres, Herr. Qed.

(** An expired token ends the call before any other check. *)
Lemma secureCall_expired now resolver msg secCtx authToken err :
  Resolve resolver = Some secCtx ->
  ctxAuthenticationError secCtx = None ->
  CtxPreauthenticatedToken secCtx = Some authToken ->
  verifyExpiration now authToken = Some err ->
  secureCall now resolver msg = (Err err, []).
Proof.
  intros Hres Herr Htok Hexp. unfold secureCall.
  now rewrite Hres, Herr, Htok, Hexp.
Qed.

(** A context is returned only after the tenant the request named was
    authorized, and then holds that tenant. *)
Lemma authorizePSI_requested secCtx authToken requestPSI ctx' :
  ctxIsMultitenant secCtx = Some true ->
  ctxRequestPrivateStateIdentifier secCtx = Some requestPSI ->
  authorizePSI secCtx authToken = Ok ctx' ->
  Authorize authToken requestPSI = (true, None)
  /\ ctx' = WithPrivateStateIdentifier secCtx requestPSI.
Proof.
  intros Hmt Hreq. unfold authorizePSI. rewrite Hmt, Hreq.
  destruct (Authorize authToken requestPSI) as [[|] [e |]]; cbn;
    intros H; try discriminate H.
  injection H as <-. split; reflexivity.
Qed.

(** C8 (as amended): on a multitenant connection, for a call whose
    preauthenticated token has passed the expiry check and the method-level
    check, [secureCall] authorizes a tenant identifier supplied with the
    request against the token before use: it returns the not-authorized
    sentinel, which is no security denial, when the token is not entitled to
    it, and a context holding that identifier only when it is; when the
    request supplied none, the tenant is the one extracted from the token. *)
Theorem secureCall_tenant :
  forall (now : ptypes.Time) (resolver : securityContextResolver) (msg : jsonrpcMessage)
         (secCtx : securityContext) (authToken : tokenPtr),
    Resolve resolver = Some secCtx ->
    ctxAuthenticationError secCtx = None ->
    CtxPreauthenticatedToken secCtx = Some authToken ->
    ctxIsMultitenant secCtx = Some true ->
    verifyExpiration now authToken = None ->
    fst (methodAccessCheck authToken msg) = None ->
    (forall requestPSI : PrivateStateIdentifier,
        ctxRequestPrivateStateIdentifier secCtx = Some requestPSI ->
        (Authorize authToken requestPSI = (false, None) ->
         fst (secureCall now resolver msg) = Err ErrNotAuthorized)
        /\ (Authorize authToken requestPSI = (true, None) ->
            fst (secureCall now resolver msg)
            = Ok (WithPrivateStateIdentifier secCtx requestPSI))
        /\ (forall ctx' : securityContext,
              fst (secureCall now resolver msg) = Ok ctx' ->
              Authorize authToken requestPSI = (true, None)
              /\ CtxPrivateStateIdentifier ctx' = Some requestPSI))
    /\ (ctxRequestPrivateStateIdentifier secCtx = None ->
        forall psi : PrivateStateIdentifier,
          ExtractPSI authToken = (psi, None) ->
          fst (secureCall now resolver msg) = Ok (WithPrivateStateIdentifier secCtx psi))
    /\ (forall message : string, ErrNotAuthorized <> securityError message)
    /\ errors.ErrorCode ErrNotAuthorized = None.
Proof.
  intros now resolver msg secCtx authToken Hres Herr Htok Hmt Hexp Hacc.
  assert (Hcall : fst (secureCall now resolver msg) = authorizePSI secCtx authToken).
  { rewrite (secureCall_checked now resolver msg secCtx authToken Hres Herr Htok Hexp).
    destruct (methodAccessCheck authToken msg) as [[stop |] logged];
      [discriminate Hacc | reflexivity]. }
  rewrite Hcall. split; [| split; [| split]].
  - intros requestPSI Hreq. split; [| split].
    + intros Hno. unfold authorizePSI. now rewrite Hmt, Hreq, Hno.
    + intros Hyes. unfold authorizePSI. now rewrite Hmt, Hreq, Hyes.
    + intros ctx' Hok.
      destruct (authorizePSI_requested secCtx authToken requestPSI ctx' Hmt Hreq Hok)
        as [Hauth ->].
      split; [exact Hauth | reflexivity].
  - intros Hnone psi Hpsi. unfold authorizePSI. now rewrite Hmt, Hnone, Hpsi.
  - discriminate.
  - reflexivity.
Qed.

(** C10: for a call whose preauthenticated token is not expired and whose
    method name holds no underscore, [secureCall] makes no method-level
    check: it logs the warning and its result is that of the tenant step
    alone, whatever authorities the token holds; without multitenancy the
    call is let through with its context. *)
Theorem secureCall_unsupported_method :
  forall (now : ptypes.Time) (resolver : securityContextResolver) (msg : jsonrpcMessage)
         (secCtx : securityContext) (authToken : tokenPtr),
    Resolve resolver = Some secCtx ->
    ctxAuthenticationError secCtx = None ->
    CtxPreauthenticatedToken secCtx = Some authToken ->
    verifyExpiration now authToken = None ->
    noUnderscore (Method msg) ->
    secureCall now resolver msg
    = (authorizePSI secCtx authToken,
       [Warn "unsupported method when performing authorization check"
             [("method", Method msg)]])
    /\ (ctxIsMultitenant secCtx <> Some true ->
        fst (secureCall now resolver msg) = Ok secCtx).
Proof.
  intros now resolver msg secCtx authToken Hres Herr Htok Hexp Hnot.
  rewrite (secureCall_checked now resolver msg secCtx authToken Hres Herr Htok Hexp).
  rewrite (methodAccessCheck_unsupported authToken msg Hnot).
  split; [reflexivity |].
  intros Hmt. cbn [fst]. unfold authorizePSI.
  destruct (ctxIsMultitenant secCtx) as [[|] |]; [contradiction | reflexivity | reflexivity].
Qed.

End CallAuthorizer.

(** * Query escaping *)
Section QueryEscaping.
Import url.

Lemma unreserved_is_literal c :
  shouldEscape c = false -> (c =? "%")%char = false /\ (c =? "+")%char = false.
Proof.
  destruct c as [[] [] [] [] [] [] [] []]; vm_compute; intros H;
    first [discriminate H | split; reflexivity].
Qed.

Lemma upperhex_roundtrip c :
  ishex (upperhex (N_of_ascii c / 16)) && ishex (upperhex (N_of_ascii c mod 16)) = true
  /\ ascii_of_N (unhex (upperhex (N_of_ascii c / 16)) * 16
                 + unhex (upperhex (N_of_ascii c mod 16))) = c.
Proof.
  destruct c as [[] [] [] [] [] [] [] []]; vm_compute; split; reflexivity.
Qed.

(** Unescaping undoes escaping, for every string. *)
Lemma QueryUnescape_QueryEscape s : QueryUnescape (QueryEscape s) = Some s.
Proof.
  induction s as [| c s IH]; [reflexivity |].
  cbn [QueryEscape]. destruct (shouldEscape c) eqn:Hesc.
  - destruct (Ascii.eqb_spec c " ") as [-> | Hsp].
    + cbn [QueryUnescape]. rewrite IH. reflexivity.
    + destruct (upperhex_roundtrip c) as [Hhex Hval].
      cbn [QueryUnescape]. rewrite Ascii.eqb_refl, Hhex, IH. cbn [option_map].
      now rewrite Hval.
  - destruct (unreserved_is_literal c Hesc) as [Hpct Hplus].
    cbn [QueryUnescape]. rewrite Hpct, Hplus, IH. reflexivity.
Qed.


Example QueryEscape_keyBULe :
  QueryEscape service_test.keyBULe = service_test.keyBULe_escaped
  /\ QueryUnescape service_test.keyBULe_escaped = Some service_test.keyBULe
  /\ QueryUnescape service_test.keyBULe
     = Some "BULeR8JyUWhiuuCMU/HLA0Q5pzkYT cHII3ZKBey3Bo=".
Proof. repeat split. Qed.

End QueryEscaping.

(** * The authority matcher and the access decision *)
Section AuthorityMatcher.
Import security shapes wire.

Lemma member_In k keys : member k keys = true <-> In k keys.
Proof.
  unfold member. rewrite existsb_exists. split.
  - intros [x [Hin Heq]]. apply String.eqb_eq in Heq. now subst.
  - intros Hin. exists k. split; [exact Hin | apply String.eqb_refl].
Qed.

Lemma intersects_In xs ys :
  intersects xs ys = true <-> exists k, In k xs /\ In k ys.
Proof.
  unfold intersects. rewrite existsb_exists. split.
  - intros [x [Hx Hm]]. exists x. split; [exact Hx | now apply member_In].
  - intros [k [Hx Hy]]. exists k. split; [exact Hx | now apply member_In].
Qed.

(** Step 5 as a proposition, for a private ask and a grant naming keys. *)
Lemma privacyKeyCompatible_keysAgree ask granted :
  Visibility ask = VisibilityPrivate ->
  url.decodeValues (privacyKeys granted) <> [] ->
  privacyKeyCompatible ask granted = true <-> keysAgree ask granted.
Proof.
  intros Hvis Hkeys. unfold privacyKeyCompatible, keysAgree. rewrite Hvis.
  destruct (url.decodeValues (privacyKeys granted)) as [| k0 keys] eqn:Hdec;
    [contradiction |].
  destruct (Action ask).
  - destruct (url.QueryUnescape (PrivateFrom ask)) as [k |].
    + rewrite member_In. split.
      * intros Hin. exists k. now split.
      * intros [k' [[= <-] Hin]]. exact Hin.
    + split; [discriminate | intros [k' [Hk' _]]; discriminate Hk'].
  - apply intersects_In.
  - apply intersects_In.
Qed.

Lemma matches_split ask granted :
  matches ask granted = otherChecks ask granted && privacyKeyCompatible ask granted.
Proof. reflexivity. Qed.

(** Step 4 for an ask that names a concrete owner: the owner, or the
    wildcard, is listed in [ownedBy]. *)
Lemma owner_listed_iff (to : Address) (owners : list Address) :
  existsb (fun owner => isAnyEOAAddress owner || (owner =? to)%N) owners = true
  <-> exists owner : Address,
        In owner owners /\ (owner = AnyEOAAddress \/ owner = to).
Proof.
  rewrite existsb_exists. split.
  - intros [owner [Hin Hor]]. exists owner. split; [exact Hin |].
    apply Bool.orb_true_iff in Hor as [Hany | Hto].
    + left. now apply N.eqb_eq in Hany.
    + right. now apply N.eqb_eq in Hto.
  - intros [owner [Hin [Hany | Hto]]]; exists owner; (split; [exact Hin |]);
      apply Bool.orb_true_iff.
    + left. now apply N.eqb_eq.
    + right. now apply N.eqb_eq.
Qed.

Lemma ownershipCompatible_concrete ask granted :
  isAnyEOAAddress (pathAccount ask) = false ->
  Action ask <> ActionCreate ->
  ownershipCompatible ask granted
  = existsb (fun owner => isAnyEOAAddress owner || (owner =? To ask)%N) (ownedBy granted).
Proof.
  unfold ownershipCompatible, pathAccount. intros Hconcrete Hact.
  destruct (Action ask); [now contradiction Hact | |]; now rewrite Hconcrete.
Qed.

(** C2 (as amended): when [granted.account] or the path-level account of the
    ask is the wildcard, the visibility check is skipped (the result is the
    same for every visibility of the grant); the ownership check is skipped
    when the wildcard is the path-level account of the ask (the result is
    the same for every [ownedBy]), while a wildcard [granted.account] alone
    leaves the owner checked: a read or write ask whose path-level account
    is concrete matches exactly when the action is compatible, [ownedBy]
    holds the owner or the wildcard, and the privacy keys agree; and a
    public ask whose path-level account is the wildcard is matched by every
    grant with a compatible action, a private one with a concrete account
    included. *)
Theorem matches_account_wildcard :
  forall (ask : ContractSecurityAttribute) (granted : CapabilityIdentifier),
    accountWildcard ask granted = true ->
    (forall v : ContractVisibility,
        matches ask (withVisibility granted v) = matches ask granted)
    /\ (isAnyEOAAddress (pathAccount ask) = true ->
        forall owners : list Address,
          matches ask (withOwnedBy granted owners) = matches ask granted)
    /\ (isAnyEOAAddress (pathAccount ask) = false ->
        Action ask <> ActionCreate ->
        (matches ask granted = true
         <-> actionCompatible ask granted = true
             /\ (exists owner : Address,
                    In owner (ownedBy granted)
                    /\ (owner = AnyEOAAddress \/ owner = To ask))
             /\ privacyKeyCompatible ask granted = true))
    /\ (isAnyEOAAddress (pathAccount ask) = true ->
        Visibility ask = VisibilityPublic ->
        actionCompatible ask granted = true ->
        matches ask granted = true).
Proof.
  intros ask granted Hwild. split; [| split; [| split]].
  - intros v. unfold matches.
    change (accountWildcard ask (withVisibility granted v))
      with (accountWildcard ask granted).
    now rewrite Hwild.
  - intros Hany owners. unfold matches, accountWildcard, ownershipCompatible in *.
    cbn [withOwnedBy account ownedBy]. unfold pathAccount in Hany.
    destruct (Action ask); [reflexivity | |]; rewrite Hany; reflexivity.
  - intros Hconcrete Hact. unfold matches. rewrite Hwild. cbn [orb andb].
    rewrite (ownershipCompatible_concrete ask granted Hconcrete Hact).
    rewrite !Bool.andb_true_iff, owner_listed_iff. tauto.
  - intros Hany Hpub Hact. unfold matches.
    rewrite Hwild, Hact. unfold ownershipCompatible, privacyKeyCompatible.
    rewrite Hpub. unfold pathAccount in Hany.
    destruct (Action ask); [reflexivity | |]; rewrite Hany; reflexivity.
Qed.

(** C3 (as amended): for a private ask against a grant whose decoded
    [privacyKeys] are not empty, [matches] is [true] only if [parties] and
    [privacyKeys] share a key (read, write), respectively [privateFrom] is
    one of [privacyKeys] (create); and when the account, visibility, action
    and ownership checks pass, it is [true] exactly then. *)
Theorem matches_private_keys :
  forall (ask : ContractSecurityAttribute) (granted : CapabilityIdentifier),
    Visibility ask = VisibilityPrivate ->
    url.decodeValues (privacyKeys granted) <> [] ->
    (matches ask granted = true -> keysAgree ask granted)
    /\ (otherChecks ask granted = true ->
        (matches ask granted = true <-> keysAgree ask granted)).
Proof.
  intros ask granted Hvis Hkeys.
  pose proof (privacyKeyCompatible_keysAgree ask granted Hvis Hkeys) as Hstep.
  rewrite matches_split. split.
  - intros H. apply andb_prop in H as [_ H]. now apply Hstep.
  - intros Hother. rewrite Hother. exact Hstep.
Qed.

Lemma isMatched_Exists attr granted :
  isMatched attr granted = true <-> Exists (fun g => satisfies attr g = true) granted.
Proof.
  induction granted as [| g rest IH]; cbn [isMatched].
  - split; [discriminate | intros H; inversion H].
  - destruct (satisfies attr g) eqn:Hg.
    + split; [intros _; now apply Exists_cons_hd | reflexivity].
    + rewrite IH. split; [apply Exists_cons_tl |].
      intros H. inversion H as [x l Hx | x l Hl]; subst; [congruence | exact Hl].
Qed.

Lemma allMatched_Forall granted attributes :
  allMatched granted attributes = true
  <-> Forall (fun attr => Exists (fun g => satisfies attr g = true) granted) attributes.
Proof.
  induction attributes as [| attr rest IH]; cbn [allMatched].
  - split; [intros _; constructor | reflexivity].
  - destruct (isMatched attr granted) eqn:Hm.
    + rewrite IH. split.
      * intros H. constructor; [now apply isMatched_Exists | exact H].
      * intros H. now inversion H.
    + split; [discriminate |]. intros H. inversion H as [| x l Hx Hl]; subst.
      apply isMatched_Exists in Hx. congruence.
Qed.

(** C4: [isAuthorized] answers [true] for the empty list of attributes, and
    for any list it answers [true] exactly when every attribute is satisfied
    by at least one authority of the token, each attribute on its own; it
    never answers with an error. *)
Theorem isAuthorized_spec :
  forall (token : Token) (attributes : list ContractSecurityAttribute),
    isAuthorized token [] = (true, None)
    /\ (fst (isAuthorized token attributes) = true
        <-> Forall (fun attr =>
                      Exists (fun g => satisfies attr g = true) (authorities token))
                   attributes)
    /\ snd (isAuthorized token attributes) = None.
Proof.
  intros token attributes. split; [reflexivity | split].
  - destruct attributes as [| attr rest].
    + split; [intros _; constructor | reflexivity].
    + apply allMatched_Forall.
  - now destruct attributes.
Qed.

(** The decision of section 8: both attributes need their grant. *)
Example isAuthorized_needs_every_attribute :
  let attributes :=
    [service_test.attribute service_test.a1a1a1 AnyEOAAddress VisibilityPublic ActionCreate
                            EmptyString [];
     service_test.attribute service_test.a1a1a1 service_test.b1b1b1 VisibilityPublic
                            ActionWrite EmptyString []] in
  service_test.run [service_test.pubCreate_a1; service_test.pubWrite_a1_bc] attributes
  = (true, None)
  /\ service_test.run [service_test.pubCreate_a1] attributes = (false, None).
Proof. split; reflexivity. Qed.

Lemma decodeValues_In raw values decoded :
  In raw values -> url.QueryUnescape raw = Some decoded ->
  In decoded (url.decodeValues values).
Proof.
  intros Hin Hdec. induction values as [| v rest IH]; [contradiction |].
  cbn [url.decodeValues]. destruct Hin as [-> | Hin].
  - rewrite Hdec. now left.
  - destruct (url.QueryUnescape v); [right |]; now apply IH.
Qed.

(** Step 5 passes when the ask presents, and the grant names, two spellings
    that decode to one key. *)
Lemma privacyKeyCompatible_same_decoded ask granted askKey grantKey k :
  presents ask askKey ->
  In grantKey (privacyKeys granted) ->
  url.QueryUnescape askKey = Some k ->
  url.QueryUnescape grantKey = Some k ->
  privacyKeyCompatible ask granted = true.
Proof.
  intros Hask Hgrant Hdask Hdgrant.
  pose proof (decodeValues_In grantKey (privacyKeys granted) k Hgrant Hdgrant) as Hin.
  unfold privacyKeyCompatible, presents in *.
  destruct (Visibility ask); try reflexivity.
  destruct (url.decodeValues (privacyKeys granted)) as [| k0 keys]; [reflexivity |].
  destruct (Action ask).
  - rewrite Hask, Hdask. now apply member_In.
  - apply intersects_In. exists k. split; [| exact Hin].
    exact (decodeValues_In askKey (Parties ask) k Hask Hdask).
  - apply intersects_In. exists k. split; [| exact Hin].
    exact (decodeValues_In askKey (Parties ask) k Hask Hdask).
Qed.





(** Two percent-escaped spellings of one key always agree, whatever the key. *)
Lemma matches_both_escaped ask granted k :
  otherChecks ask granted = true ->
  presents ask (url.QueryEscape k) ->
  In (url.QueryEscape k) (privacyKeys granted) ->
  matches ask granted = true.
Proof.
  intros Hother Hask Hgrant. rewrite matches_split, Hother. cbn [andb].
  apply (privacyKeyCompatible_same_decoded ask granted _ _ k Hask Hgrant);
    apply QueryUnescape_QueryEscape.
Qed.

End AuthorityMatcher.

(** * The statements at the inputs of the tests *)
Section AtConcreteInputs.
Import rpc calls security shapes wire service_test.

(** C8, the claim as stated fails: with an expired token the call is
    answered with the expiry denial, not with the sentinel, although the
    token is not entitled to the tenant the request names. *)
Lemma secureCall_expired_token_before_tenant :
  Authorize (Multitenancy := entitlesNone) (Some earlyToken) "PS2" = (false, None)
  /\ fst (secureCall (M := entitlesNone) 2000000000
                     (mkResolver (Some (multitenantContext earlyToken (Some "PS2"))))
                     (request "eth_blockNumber"))
     = Err (securityError "token expired")
  /\ fst (secureCall (M := entitlesNone) 2000000000
                     (mkResolver (Some (multitenantContext earlyToken (Some "PS2"))))
                     (request "eth_blockNumber"))
     <> Err ErrNotAuthorized.
Proof. split; [reflexivity | split; [reflexivity | discriminate]]. Qed.

Lemma secureCall_tenant_not_entitled :
  verifyExpiration 0 (Some openToken) = None
  /\ fst (secureCall (M := entitlesNone) 0
                     (mkResolver (Some (multitenantContext openToken (Some "PS2"))))
                     (request "eth_blockNumber"))
     = Err ErrNotAuthorized.
Proof.
  split; [reflexivity |].
  exact (proj1 (proj1 (@secureCall_tenant entitlesNone 0
                         (mkResolver (Some (multitenantContext openToken (Some "PS2"))))
                         (request "eth_blockNumber")
                         (multitenantContext openToken (Some "PS2")) (Some openToken)
                         eq_refl eq_refl eq_refl eq_refl eq_refl eq_refl)
                      "PS2" eq_refl) eq_refl).
Defined.

Lemma secureCall_unsupported_method_modules :
  noUnderscore "modules"
  /\ secureCall (M := entitlesNone) 0 (mkResolver (Some (plainContext bareToken)))
                (request "modules")
     = (Ok (plainContext bareToken),
        [Warn "unsupported method when performing authorization check"
              [("method", "modules")]]).
Proof.
  assert (Hnot : noUnderscore "modules").
  { unfold noUnderscore. cbn. intuition discriminate. }
  split; [exact Hnot |].
  exact (proj1 (@secureCall_unsupported_method entitlesNone 0
                  (mkResolver (Some (plainContext bareToken))) (request "modules")
                  (plainContext bareToken) (Some bareToken)
                  eq_refl eq_refl eq_refl eq_refl Hnot)).
Defined.

(** C2, the claim as stated fails: with the wildcard as the account of the
    grant the owner is still checked, as
    [TestMatch_whenContractReadPermission_EoaSame] and [_EoaDifferent] have it. *)
Lemma matches_wildcard_grant_checks_owner :
  accountWildcard (askURL VisibilityPrivate AnyEOAAddress ActionRead [eoa_9453] [])
                  (grantedURL VisibilityPrivate AnyEOAAddress (Only ActionRead) contracts
                              [eoa_095e] []) = true
  /\ matches (askURL VisibilityPrivate AnyEOAAddress ActionRead [eoa_9453] [])
             (grantedURL VisibilityPrivate AnyEOAAddress (Only ActionRead) contracts
                         [eoa_095e] []) = false
  /\ matches (askURL VisibilityPrivate AnyEOAAddress ActionRead [eoa_9453] [])
             (withOwnedBy (grantedURL VisibilityPrivate AnyEOAAddress (Only ActionRead)
                                      contracts [eoa_095e] [])
                          [eoa_9453]) = true.
Proof. repeat split. Qed.

Lemma matches_account_wildcard_whenPublic :
  accountWildcard (askURL VisibilityPublic AnyEOAAddress ActionCreate [] [])
                  (grantedURL VisibilityPrivate a1b1c1 (Only ActionCreate) "contract" [] ["A/"])
  = true
  /\ matches (askURL VisibilityPublic AnyEOAAddress ActionCreate [] [])
             (grantedURL VisibilityPrivate a1b1c1 (Only ActionCreate) "contract" [] ["A/"])
     = true.
Proof.
  split; [reflexivity |].
  exact (proj2 (proj2 (proj2 (matches_account_wildcard
                                (askURL VisibilityPublic AnyEOAAddress ActionCreate [] [])
                                (grantedURL VisibilityPrivate a1b1c1 (Only ActionCreate)
                                            "contract" [] ["A/"])
                                eq_refl)))
               eq_refl eq_refl eq_refl).
Defined.

(** C3, the claim as stated fails: the keys of
    [TestMatch_whenPathNotMatched] intersect and the grant does not match,
    for its action is another; the key of
    [TestMatch_failsWhenAccountsDiffer] is the one the grant names and the
    grant does not match, for its account is another. *)
Lemma matches_keys_agree_other_check_fails :
  (Visibility (askURL VisibilityPrivate a1b1c1 ActionRead [] ["A1"]) = VisibilityPrivate
   /\ keysAgree (askURL VisibilityPrivate a1b1c1 ActionRead [] ["A1"])
                (grantedURL VisibilityPrivate a1b1c1 (Only ActionWrite) contracts
                            [AnyEOAAddress] ["A1"])
   /\ matches (askURL VisibilityPrivate a1b1c1 ActionRead [] ["A1"])
              (grantedURL VisibilityPrivate a1b1c1 (Only ActionWrite) contracts
                          [AnyEOAAddress] ["A1"]) = false)
  /\ (Visibility (askURL VisibilityPrivate eoa_a94f ActionCreate [] [keydLHr_escaped])
      = VisibilityPrivate
      /\ keysAgree (askURL VisibilityPrivate eoa_a94f ActionCreate [] [keydLHr_escaped])
                   (grantedURL VisibilityPrivate eoa_ed9d (Only ActionCreate) contracts
                               [] [keydLHr_escaped])
      /\ matches (askURL VisibilityPrivate eoa_a94f ActionCreate [] [keydLHr_escaped])
                 (grantedURL VisibilityPrivate eoa_ed9d (Only ActionCreate) contracts
                             [] [keydLHr_escaped]) = false).
Proof.
  split; (split; [reflexivity | split; [| reflexivity]]).
  - exists "A1". cbn. split; now left.
  - exists "dLHrFQpbSda0EhJnLonsBwDjks+f724NipfI5zK5RSs=". cbn. split; [reflexivity | now left].
Qed.

Lemma matches_private_keys_TmKeysIntersect :
  matches (askURL VisibilityPrivate AnyEOAAddress ActionRead [] ["B"; "C"])
          (grantedURL VisibilityPrivate AnyEOAAddress (Only ActionRead) contracts [] ["A"; "B"])
  = true
  /\ keysAgree (askURL VisibilityPrivate AnyEOAAddress ActionRead [] ["B"; "C"])
               (grantedURL VisibilityPrivate AnyEOAAddress (Only ActionRead) contracts
                           [] ["A"; "B"]).
Proof.
  split; [reflexivity |].
  refine (proj1 (matches_private_keys
                   (askURL VisibilityPrivate AnyEOAAddress ActionRead [] ["B"; "C"])
                   (grantedURL VisibilityPrivate AnyEOAAddress (Only ActionRead) contracts
                               [] ["A"; "B"])
                   eq_refl _) eq_refl).
  discriminate.
Defined.



(** A key that holds a [%] does not match its percent-escaped form either:
    as the grant spells it the key decodes to another text. *)
Example matches_percent_in_key_not_escaped :
  url.QueryEscape "a%41" = "a%2541"
  /\ url.QueryUnescape "a%41" = Some "aA"
  /\ matches (askURL VisibilityPrivate eoa_ed9d ActionCreate [] [url.QueryEscape "a%41"])
             (grantedURL VisibilityPrivate eoa_ed9d (Only ActionCreate) contracts
                         [] ["a%41"]) = false.
Proof. repeat split. Qed.

(** The owner of [TestMatch_whenContractReadPermission_EoaDifferent], as the
    test spells it and with its first digit percent-escaped: the grant
    matches either way; the owner of [_EoaSame] matches in neither. *)
Example matches_owner_percent_escaped :
  readOwners hexAddress ["0x095e7baea6a6c7c4c2dfeb977efac326af552d87"] = [eoa_095e]
  /\ readOwners hexAddress ["0x%3095e7baea6a6c7c4c2dfeb977efac326af552d87"] = [eoa_095e]
  /\ matches (askURL VisibilityPrivate AnyEOAAddress ActionRead [eoa_095e] [])
             (withOwnedBy (grantedURL VisibilityPrivate AnyEOAAddress (Only ActionRead)
                                      contracts [] [])
                          (readOwners hexAddress
                                      ["0x%3095e7baea6a6c7c4c2dfeb977efac326af552d87"]))
     = true
  /\ matches (askURL VisibilityPrivate AnyEOAAddress ActionRead [eoa_9453] [])
             (withOwnedBy (grantedURL VisibilityPrivate AnyEOAAddress (Only ActionRead)
                                      contracts [] [])
                          (readOwners hexAddress
                                      ["0x%3095e7baea6a6c7c4c2dfeb977efac326af552d87"]))
     = false.
Proof. repeat split. Qed.

(** Lifting the ownership check for a wildcard account of the grant would
    let the pair of [TestMatch_whenContractReadPermission_EoaSame] match,
    against the assertion of that test. *)
Example matchesLiftingOwnership_EoaSame :
  matchesLiftingOwnership
    (askURL VisibilityPrivate AnyEOAAddress ActionRead [eoa_9453] [])
    (grantedURL VisibilityPrivate AnyEOAAddress (Only ActionRead) contracts [eoa_095e] [])
  = true.
Proof. reflexivity. Qed.

End AtConcreteInputs.

(** * The expectations of [service_test.go] on the model *)
Module service_test_facts.
Import security service_test.

Example TestMatch_whenTypical :
  matches (askURL VisibilityPrivate a1b1c1 ActionCreate [] ["A%2F"])
          (grantedURL VisibilityPrivate a1b1c1 (Only ActionCreate) contracts [] ["A/"]) = true.
Proof. reflexivity. Qed.

Example TestMatch_whenAnyAction :
  let granted := grantedURL VisibilityPrivate a1b1c1 AnyAction contracts [AnyEOAAddress] ["A1"] in
  matches (askURL VisibilityPrivate a1b1c1 ActionRead [] ["A1"]) granted = true
  /\ matches (askURL VisibilityPrivate a1b1c1 ActionRead [AnyEOAAddress] ["A1"; "B1"]) granted = true
  /\ matches (askURL VisibilityPrivate a1b1c1 ActionWrite [AnyEOAAddress] ["A1"]) granted = true.
Proof. repeat split; reflexivity. Qed.

Example TestMatch_whenPathNotMatched :
  matches (askURL VisibilityPrivate a1b1c1 ActionRead [] ["A1"])
          (grantedURL VisibilityPrivate a1b1c1 (Only ActionWrite) contracts [AnyEOAAddress] ["A1"])
  = false.
Proof. reflexivity. Qed.

Example TestMatch_whenSchemeIsNotEqual :
  matches (askURL VisibilityPrivate a1b1c1 ActionCreate [] ["A"])
          (grantedURL VisibilityUnrecognized a1b1c1 (Only ActionCreate) contracts [] ["A"])
  = false.
Proof. reflexivity. Qed.

Example TestMatch_whenContractWritePermission_GrantedIsTheSuperSet :
  matches (askURL VisibilityPrivate AnyEOAAddress ActionWrite [AnyEOAAddress] ["A"])
          (grantedURL VisibilityPrivate AnyEOAAddress (Only ActionWrite) contracts
                      [AnyEOAAddress] ["A"; "B"]) = true
  /\ matches (askURL VisibilityPrivate AnyEOAAddress ActionRead [AnyEOAAddress] ["A"])
             (grantedURL VisibilityPrivate AnyEOAAddress (Only ActionRead) contracts
                         [AnyEOAAddress] ["A"; "B"]) = true.
Proof. split; reflexivity. Qed.

Example TestMatch_whenContractReadPermission_EoaSame :
  matches (askURL VisibilityPrivate AnyEOAAddress ActionRead [eoa_9453] [])
          (grantedURL VisibilityPrivate AnyEOAAddress (Only ActionRead) contracts [eoa_095e] [])
  = false.
Proof. reflexivity. Qed.

Example TestMatch_whenContractReadPermission_EoaDifferent :
  matches (askURL VisibilityPrivate AnyEOAAddress ActionRead [eoa_095e] [])
          (grantedURL VisibilityPrivate AnyEOAAddress (Only ActionRead) contracts [eoa_095e] [])
  = true.
Proof. reflexivity. Qed.

Example TestMatch_whenContractReadPermission_TmKeysIntersect :
  matches (askURL VisibilityPrivate AnyEOAAddress ActionRead [] ["B"; "C"])
          (grantedURL VisibilityPrivate AnyEOAAddress (Only ActionRead) contracts [] ["A"; "B"])
  = true.
Proof. reflexivity. Qed.

Example TestMatch_whenContractReadPermission_TmKeysDontIntersect :
  matches (askURL VisibilityPrivate AnyEOAAddress ActionRead [] ["C"; "D"])
          (grantedURL VisibilityPrivate AnyEOAAddress (Only ActionRead) contracts [] ["A"; "B"])
  = false.
Proof. reflexivity. Qed.

Example TestMatch_whenContractWritePermission_Same :
  matches (askURL VisibilityPrivate AnyEOAAddress ActionWrite [AnyEOAAddress] ["A"])
          (grantedURL VisibilityPrivate AnyEOAAddress (Only ActionWrite) contracts
                      [AnyEOAAddress] ["A"]) = true.
Proof. reflexivity. Qed.

Example TestMatch_whenContractWritePermission_Different :
  matches (askURL VisibilityPrivate AnyEOAAddress ActionWrite [AnyEOAAddress] ["B"])
          (grantedURL VisibilityPrivate AnyEOAAddress (Only ActionWrite) contracts
                      [AnyEOAAddress] ["A"]) = false.
Proof. reflexivity. Qed.

Example TestMatch_whenContractCreatePermission_Same :
  matches (askURL VisibilityPrivate AnyEOAAddress ActionCreate [AnyEOAAddress] ["A"])
          (grantedURL VisibilityPrivate AnyEOAAddress (Only ActionCreate) contracts
                      [AnyEOAAddress] ["A"]) = true.
Proof. reflexivity. Qed.

Example TestMatch_whenContractCreatePermission_Different :
  matches (askURL VisibilityPrivate AnyEOAAddress ActionCreate [AnyEOAAddress] ["B"])
          (grantedURL VisibilityPrivate AnyEOAAddress (Only ActionCreate) contracts
                      [AnyEOAAddress] ["A"]) = false.
Proof. reflexivity. Qed.

Example TestMatch_whenUsingWildcardAccount :
  matches (askURL VisibilityPrivate eoa_ed9d ActionCreate [] [keydLHr_escaped])
          (grantedURL VisibilityPrivate AnyEOAAddress (Only ActionCreate) contracts
                      [] [keydLHr_escaped]) = true
  /\ matches (askURL VisibilityPrivate a1b1c1 ActionRead [0x1234%N] [])
             (grantedURL VisibilityPrivate AnyEOAAddress (Only ActionRead) "contract"
                         [AnyEOAAddress] []) = true.
Proof. split; reflexivity. Qed.

Example TestMatch_whenNotUsingWildcardAccount :
  matches (askURL VisibilityPrivate eoa_ed9d ActionCreate [] [keydLHr_escaped])
          (grantedURL VisibilityPrivate eoa_ed9d (Only ActionCreate) contracts
                      [] [keydLHr_escaped]) = true.
Proof. reflexivity. Qed.

Example TestMatch_failsWhenAccountsDiffer :
  matches (askURL VisibilityPrivate eoa_a94f ActionCreate [] [keydLHr_escaped])
          (grantedURL VisibilityPrivate eoa_ed9d (Only ActionCreate) contracts
                      [] [keydLHr_escaped]) = false.
Proof. reflexivity. Qed.

Example TestMatch_whenPublic :
  matches (askURL VisibilityPublic AnyEOAAddress ActionCreate [] [])
          (grantedURL VisibilityPrivate a1b1c1 (Only ActionCreate) "contract" [] ["A/"]) = true.
Proof. reflexivity. Qed.

Example TestMatch_whenNotEscaped :
  matches (askURL VisibilityPrivate eoa_ed9d ActionCreate [] [keyBULe_escaped])
          (grantedURL VisibilityPrivate eoa_ed9d (Only ActionCreate) contracts [] [keyBULe])
  = false.
Proof. reflexivity. Qed.

Example IsAuthorized_forPublicContracts :
  run [pubCreate_a1]
      [attribute a1a1a1 AnyEOAAddress VisibilityPublic ActionCreate EmptyString []] = (true, None)
  /\ run [grantedURL VisibilityPublic a1a1a1 (Only ActionRead) contracts [a1a1a1] []]
         [attribute a1a1a1 AnyEOAAddress VisibilityPublic ActionRead EmptyString []] = (true, None)
  /\ run [grantedURL VisibilityPublic a1a1a1 (Only ActionRead) contracts [b1b1b1] []]
         [attribute a1a1a1 b1b1b1 VisibilityPublic ActionRead EmptyString []] = (true, None)
  /\ run [grantedURL VisibilityPublic a1a1a1 (Only ActionWrite) contracts [a1a1a1] []]
         [attribute a1a1a1 AnyEOAAddress VisibilityPublic ActionWrite EmptyString []] = (true, None)
  /\ run [pubWrite_a1_bc]
         [attribute a1a1a1 b1b1b1 VisibilityPublic ActionWrite EmptyString []] = (true, None)
  /\ run [pubWrite_a1_bc]
         [attribute a1a1a1 c1c1c1 VisibilityPublic ActionWrite EmptyString []] = (true, None)
  /\ run [pubCreate_a1; pubWrite_a1_bc]
         [attribute a1a1a1 AnyEOAAddress VisibilityPublic ActionCreate EmptyString [];
          attribute a1a1a1 b1b1b1 VisibilityPublic ActionWrite EmptyString []] = (true, None).
Proof. repeat split; reflexivity. Qed.

Example IsAuthorized_forPrivateContracts :
  run [privGrant ActionCreate [] ["A"]]
      [attribute a1a1a1 AnyEOAAddress VisibilityPrivate ActionCreate "A" []] = (true, None)
  /\ run [privGrant ActionCreate [] ["B"]]
         [attribute a1a1a1 AnyEOAAddress VisibilityPrivate ActionCreate "A" []] = (false, None)
  /\ run [privGrant ActionRead [a1a1a1] ["A"; "B"]]
         [attribute a1a1a1 AnyEOAAddress VisibilityPrivate ActionRead EmptyString ["A"]] = (true, None)
  /\ run [privGrant ActionRead [b1b1b1] ["A"]]
         [attribute a1a1a1 b1b1b1 VisibilityPrivate ActionRead EmptyString ["A"]] = (true, None)
  /\ run [privGrant ActionRead [c1c1c1] ["A"]]
         [attribute a1a1a1 b1b1b1 VisibilityPrivate ActionRead EmptyString ["A"]] = (false, None)
  /\ run [privGrant ActionRead [b1b1b1] ["B"]]
         [attribute a1a1a1 b1b1b1 VisibilityPrivate ActionRead EmptyString ["A"]] = (false, None)
  /\ run [privGrant ActionWrite [a1a1a1] ["A"; "B"]]
         [attribute a1a1a1 AnyEOAAddress VisibilityPrivate ActionWrite "A" ["A"]] = (true, None)
  /\ run [privGrant ActionWrite [b1b1b1] ["A"]]
         [attribute a1a1a1 b1b1b1 VisibilityPrivate ActionWrite "A" ["A"]] = (true, None)
  /\ run [privGrant ActionWrite [b1b1b1] ["A"]; privGrant ActionWrite [b1b1b1] ["A"; "B"]]
         [attribute a1a1a1 b1b1b1 VisibilityPrivate ActionWrite "A" ["A"]] = (true, None)
  /\ run [privGrant ActionWrite [c1c1c1] ["A"]]
         [attribute a1a1a1 b1b1b1 VisibilityPrivate ActionWrite EmptyString ["A"]] = (false, None)
  /\ run [privGrant ActionWrite [b1b1b1] ["B"]]
         [attribute a1a1a1 b1b1b1 VisibilityPrivate ActionWrite EmptyString ["A"]] = (false, None).
Proof. repeat split; reflexivity. Qed.

End service_test_facts.

(** * Further properties of the middleware checks *)
Section MoreMiddlewareChecks.
Import rpc.

(** The three results [verifyExpiration] can have for a token. *)
Lemma verifyExpiration_cases now tok :
  verifyExpiration now (Some tok) = None
  \/ verifyExpiration now (Some tok) = Some (securityError "token expired")
  \/ exists cause,
       ptypes.validateTimestamp (proto.ExpiredAt tok) = Some cause
       /\ verifyExpiration now (Some tok)
          = Some (errorString ("invalid timestamp in token: " ++ errors.Error cause)).
Proof.
  unfold verifyExpiration, ptypes.Timestamp_.
  destruct (ptypes.validateTimestamp (proto.ExpiredAt tok)) as [cause |].
  - right; right. exists cause. split; reflexivity.
  - destruct (ptypes.Before now _); [left | right; left]; reflexivity.
Qed.

(** X1: a token whose expiry is a valid timestamp passes exactly while the
    clock is strictly before the expiry; from the expiry instant on it is
    answered with the token-expired denial. *)
Theorem verifyExpiration_strictly_before :
  forall (now : ptypes.Time) (tok : proto.PreAuthenticatedAuthenticationToken)
         (ts : proto.Timestamp),
    proto.ExpiredAt tok = Some ts ->
    ptypes.validateTimestamp (Some ts) = None ->
    (verifyExpiration now (Some tok) = None
     <-> now < ptypes.Unix (proto.Seconds ts) (proto.Nanos ts))
    /\ (ptypes.Unix (proto.Seconds ts) (proto.Nanos ts) <= now ->
        verifyExpiration now (Some tok) = Some (securityError "token expired")).
Proof.
  intros now tok ts Hexp Hvalid.
  rewrite (verifyExpiration_valid_timestamp now tok ts Hexp Hvalid).
  destruct (Z.ltb_spec now (ptypes.Unix (proto.Seconds ts) (proto.Nanos ts))) as [Hlt | Hge].
  - split; [split; [intros _; exact Hlt | reflexivity] | lia].
  - split; [split; [discriminate | lia] | reflexivity].
Qed.

Lemma verifyExpiration_strictly_before_at_expiry :
  verifyExpiration 999999999 (Some calls.earlyToken) = None
  /\ verifyExpiration 1000000000 (Some calls.earlyToken)
     = Some (securityError "token expired").
Proof.
  destruct (verifyExpiration_strictly_before 999999999 calls.earlyToken
              (proto.mkTimestamp 1 0) eq_refl eq_refl) as [Hiff _].
  destruct (verifyExpiration_strictly_before 1000000000 calls.earlyToken
              (proto.mkTimestamp 1 0) eq_refl eq_refl) as [_ Hafter].
  split.
  - apply Hiff. reflexivity.
  - apply Hafter. discriminate.
Defined.

Lemma verifyExpiration_monotone now later token e :
  now <= later ->
  verifyExpiration now token = Some e ->
  verifyExpiration later token = Some e.
Proof.
  intros Hle. destruct token as [tok |]; [| discriminate].
  unfold verifyExpiration, ptypes.Timestamp_, ptypes.Before.
  set (expiry := match proto.ExpiredAt tok with
                 | Some t => ptypes.Unix (proto.Seconds t) (proto.Nanos t)
                 | None => ptypes.Unix 0 0
                 end).
  cbv beta iota zeta.
  destruct (ptypes.validateTimestamp (proto.ExpiredAt tok)) as [cause |];
    [intros He; exact He |].
  destruct (Z.ltb_spec now expiry) as [Hlt | Hge]; [discriminate |].
  intros He.
  destruct (Z.ltb_spec later expiry) as [Hlt' | Hge']; [lia | exact He].
Qed.

(** X2: once [verifyExpiration] fails for a token it fails in the same way
    at every later time. *)
Theorem verifyExpiration_stays_failed :
  forall (now later : ptypes.Time) (token : tokenPtr) (e : error),
    now <= later ->
    verifyExpiration now token = Some e ->
    verifyExpiration later token = Some e.
Proof. intros now later token e. apply verifyExpiration_monotone. Qed.

Lemma verifyExpiration_stays_failed_earlyToken :
  verifyExpiration 3000000000 (Some calls.earlyToken)
  = Some (securityError "token expired").
Proof.
  apply (verifyExpiration_stays_failed 2000000000 3000000000 (Some calls.earlyToken)).
  - discriminate.
  - reflexivity.
Defined.

(** X3: an error of [verifyExpiration] is either the token-expired denial,
    which [securityErrorMessage] reports with code -32001, or the
    invalid-timestamp error, which carries no code of its own and is
    reported with the default code. *)
Theorem verifyExpiration_error_codes :
  forall (now : ptypes.Time) (token : tokenPtr) (e : error) (forMsg : jsonrpcMessage),
    verifyExpiration now token = Some e ->
    (e = securityError "token expired"
     /\ rpc.Error (securityErrorMessage forMsg e)
        = Some (mkJsonError (-32001) "token expired"))
    \/ (exists cause,
          e = errorString ("invalid timestamp in token: " ++ cause)
          /\ rpc.Error (securityErrorMessage forMsg e)
             = Some (mkJsonError defaultErrorCode
                                 ("invalid timestamp in token: " ++ cause))).
Proof.
  intros now token e forMsg He. destruct token as [tok |]; [| discriminate].
  destruct (verifyExpiration_cases now tok) as [H | [H | [cause [_ H]]]];
    rewrite H in He; [discriminate | |]; injection He as <-.
  - left. split; reflexivity.
  - right. exists (errors.Error cause). split; reflexivity.
Qed.

Lemma verifyExpiration_error_codes_no_expiry :
  verifyExpiration 0 (Some (proto.mkToken [] None []))
  = Some (errorString "invalid timestamp in token: timestamp: nil Timestamp")
  /\ ((errorString "invalid timestamp in token: timestamp: nil Timestamp"
       = securityError "token expired"
       /\ rpc.Error (securityErrorMessage
                       (calls.request "eth_blockNumber")
                       (errorString "invalid timestamp in token: timestamp: nil Timestamp"))
          = Some (mkJsonError (-32001) "token expired"))
      \/ (exists cause,
            errorString "invalid timestamp in token: timestamp: nil Timestamp"
            = errorString ("invalid timestamp in token: " ++ cause)
            /\ rpc.Error (securityErrorMessage
                            (calls.request "eth_blockNumber")
                            (errorString
                               "invalid timestamp in token: timestamp: nil Timestamp"))
               = Some (mkJsonError defaultErrorCode
                                   ("invalid timestamp in token: " ++ cause)))).
Proof.
  split; [reflexivity |].
  exact (verifyExpiration_error_codes 0 (Some (proto.mkToken [] None []))
           (errorString "invalid timestamp in token: timestamp: nil Timestamp")
           (calls.request "eth_blockNumber") eq_refl).
Defined.

Lemma verifyAccess_Some_iff service method authorities :
  verifyAccess service method authorities
  = Some (securityError (service ++ serviceMethodSeparator ++ method ++ " - access denied"))
  <-> ~ Exists (grants service method) authorities.
Proof.
  split.
  - intros H Hex. apply verifyAccess_nil_iff in Hex. congruence.
  - intros Hnot. destruct (verifyAccess_denial service method authorities) as [H | H];
      [| exact H].
    apply verifyAccess_nil_iff in H. contradiction.
Qed.

(** X4: the result of [verifyAccess] depends on the authorities held, not
    on their order or their number of copies. *)
Theorem verifyAccess_same_authorities :
  forall (service method : string) (held held' : list proto.GrantedAuthority),
    (forall a, In a held <-> In a held') ->
    verifyAccess service method held = verifyAccess service method held'.
Proof.
  intros service method held held' Hsame.
  assert (Hex : Exists (grants service method) held
                <-> Exists (grants service method) held').
  { rewrite !Exists_exists. split; intros [a [Hin Hg]]; exists a; split;
      try exact Hg; now apply Hsame. }
  destruct (verifyAccess_denial service method held) as [H | H]; rewrite H.
  - symmetry. apply verifyAccess_nil_iff, Hex, verifyAccess_nil_iff, H.
  - symmetry. apply verifyAccess_Some_iff. intros Hex'.
    apply verifyAccess_Some_iff in H. apply H, Hex, Hex'.
Qed.

Lemma verifyAccess_same_authorities_swapped :
  verifyAccess "eth" "getBalance"
               [proto.mkGrantedAuthority "net" "*" EmptyString;
                proto.mkGrantedAuthority "eth" "*" EmptyString]
  = verifyAccess "eth" "getBalance"
                 [proto.mkGrantedAuthority "eth" "*" EmptyString;
                  proto.mkGrantedAuthority "net" "*" EmptyString;
                  proto.mkGrantedAuthority "eth" "*" EmptyString].
Proof.
  apply verifyAccess_same_authorities. intros a. cbn. tauto.
Defined.

(** X5: further authorities never take an access away: a call allowed
    with some authorities is allowed with every list that holds them. *)
Theorem verifyAccess_more_authorities :
  forall (service method : string) (held more : list proto.GrantedAuthority),
    incl held more ->
    verifyAccess service method held = None ->
    verifyAccess service method more = None.
Proof.
  intros service method held more Hincl H.
  apply verifyAccess_nil_iff. apply verifyAccess_nil_iff in H.
  rewrite Exists_exists in *. destruct H as [a [Hin Hg]].
  exists a. split; [apply Hincl, Hin | exact Hg].
Qed.

Lemma verifyAccess_more_authorities_added :
  verifyAccess "eth" "getBalance"
               [proto.mkGrantedAuthority "net" "version" EmptyString;
                proto.mkGrantedAuthority "eth" "*" EmptyString] = None.
Proof.
  apply (verifyAccess_more_authorities "eth" "getBalance"
           [proto.mkGrantedAuthority "eth" "*" EmptyString]).
  - intros a Hin. right. exact Hin.
  - reflexivity.
Defined.

End MoreMiddlewareChecks.

(** * Further properties of the call authorizer *)
Section MoreCallAuthorizer.
Import rpc.
Context {M : Multitenancy}.

Lemma substring_head a b : substring 0 (String.length a) (a ++ b) = a.
Proof. induction a as [| c a IH]; cbn; [now destruct b | now rewrite IH]. Qed.

Lemma substring_tail a b :
  substring (String.length a) (String.length (a ++ b) - String.length a) (a ++ b) = b.
Proof.
  rewrite length_string_app.
  replace (String.length a + String.length b - String.length a)%nat
    with (String.length b) by lia.
  apply substring_skip.
Qed.

(** [SplitN] cuts a name at its first separator. *)
Lemma SplitN_at_first_separator service name :
  noUnderscore service ->
  SplitN (service ++ "_" ++ name) serviceMethodSeparator 2 = [service; name].
Proof.
  intros Hnot. unfold SplitN, genSplit, serviceMethodSeparator.
  change (service ++ "_" ++ name) with (service ++ String "_" name).
  rewrite (Index_first_separator "_" service name Hnot).
  rewrite substring_head. f_equal. f_equal.
  replace (service ++ String "_" name) with ((service ++ "_") ++ name)
    by apply string_app_assoc.
  replace (String.length service + String.length "_")%nat
    with (String.length (service ++ "_")) by apply length_string_app.
  apply substring_tail.
Qed.

Lemma Index_present c s :
  In c (list_ascii_of_string s) -> exists m, Index s (String c EmptyString) = Some m.
Proof.
  induction s as [| a s IH]; intros Hin; [contradiction |].
  cbn [Index]. rewrite prefix_char.
  destruct (Ascii.eqb_spec c a) as [-> | Hne]; [now exists 0%nat |].
  destruct Hin as [Heq | Hin]; [congruence |].
  destruct (IH Hin) as [m Hm]. rewrite Hm. now exists (S m).
Qed.

(** A name is cut in two exactly when it holds the separator. *)
Lemma SplitN_length method :
  List.length (SplitN method serviceMethodSeparator 2) = 2%nat
  <-> In "_"%char (list_ascii_of_string method).
Proof.
  unfold SplitN, genSplit, serviceMethodSeparator. split.
  - intros Hlen.
    destruct (in_dec ascii_dec "_"%char (list_ascii_of_string method)) as [Hin | Hnot];
      [exact Hin |].
    rewrite (Index_absent "_" method Hnot) in Hlen. discriminate Hlen.
  - intros Hin. destruct (Index_present "_" method Hin) as [m Hm].
    rewrite Hm. reflexivity.
Qed.

Lemma methodAccessCheck_split tok msg service name :
  noUnderscore service ->
  Method msg = (service ++ "_" ++ name)%string ->
  methodAccessCheck (Some tok) msg
  = match verifyAccess service name (proto.Authorities tok) with
    | Some err => (Some (Err err), [])
    | None => (None, [])
    end.
Proof.
  intros Hnot Hname. unfold methodAccessCheck.
  rewrite Hname, (SplitN_at_first_separator service name Hnot). reflexivity.
Qed.

Lemma authorizePSI_never_panics secCtx authToken :
  authorizePSI secCtx authToken <> Panic.
Proof.
  unfold authorizePSI.
  destruct (ctxIsMultitenant secCtx) as [[|] |]; try discriminate.
  destruct (ctxRequestPrivateStateIdentifier secCtx) as [requestPSI |].
  - destruct (Authorize authToken requestPSI) as [[|] [e |]]; discriminate.
  - destruct (ExtractPSI authToken) as [psi [e |]]; discriminate.
Qed.

Lemma authorizePSI_frame secCtx authToken ctx' :
  authorizePSI secCtx authToken = Ok ctx' ->
  ctx' = secCtx
  \/ (ctxIsMultitenant secCtx = Some true
      /\ exists psi, ctx' = WithPrivateStateIdentifier secCtx psi).
Proof.
  unfold authorizePSI.
  destruct (ctxIsMultitenant secCtx) as [[|] |];
    try (intros [= <-]; left; reflexivity).
  destruct (ctxRequestPrivateStateIdentifier secCtx) as [requestPSI |].
  - destruct (Authorize authToken requestPSI) as [[|] [e |]]; try discriminate.
    intros [= <-]. right. split; [reflexivity | now exists requestPSI].
  - destruct (ExtractPSI authToken) as [psi [e |]]; try discriminate.
    intros [= <-]. right. split; [reflexivity | now exists psi].
Qed.

(** X6: a call that [secureCall] lets through with a token has passed both
    checks: the token is not expired, and when the method name is
    [service_name], cut at its first underscore, some authority of the token
    grants it. *)
Theorem secureCall_allows_only_authorized :
  forall (now : ptypes.Time) (resolver : securityContextResolver) (msg : jsonrpcMessage)
         (secCtx ctx' : securityContext) (tok : proto.PreAuthenticatedAuthenticationToken),
    Resolve resolver = Some secCtx ->
    CtxPreauthenticatedToken secCtx = Some (Some tok) ->
    fst (secureCall now resolver msg) = Ok ctx' ->
    verifyExpiration now (Some tok) = None
    /\ (forall service name : string,
          noUnderscore service ->
          Method msg = (service ++ "_" ++ name)%string ->
          verifyAccess service name (proto.Authorities tok) = None).
Proof.
  intros now resolver msg secCtx ctx' tok Hres Htok. unfold secureCall.
  rewrite Hres. destruct (ctxAuthenticationError secCtx) as [e |]; [discriminate |].
  rewrite Htok. destruct (verifyExpiration now (Some tok)) as [e |]; [discriminate |].
  intros Hok. split; [reflexivity |].
  intros service name Hnot Hname.
  rewrite (methodAccessCheck_split tok msg service name Hnot Hname) in Hok.
  destruct (verifyAccess service name (proto.Authorities tok)) as [e |];
    [discriminate Hok | reflexivity].
Qed.

(** X7: the method-level check cuts the name at its first underscore, so
    the method part may itself hold underscores: for an unexpired token and
    the name [service_name], the call is answered with the access denial
    when no authority grants [(service, name)], and goes on to the tenant
    step, with nothing logged, when one does. *)
Theorem secureCall_method_check :
  forall (now : ptypes.Time) (resolver : securityContextResolver) (msg : jsonrpcMessage)
         (secCtx : securityContext) (tok : proto.PreAuthenticatedAuthenticationToken)
         (service name : string),
    Resolve resolver = Some secCtx ->
    ctxAuthenticationError secCtx = None ->
    CtxPreauthenticatedToken secCtx = Some (Some tok) ->
    verifyExpiration now (Some tok) = None ->
    noUnderscore service ->
    Method msg = (service ++ "_" ++ name)%string ->
    (~ Exists (grants service name) (proto.Authorities tok) ->
     secureCall now resolver msg
     = (Err (securityError (service ++ "_" ++ name ++ " - access denied")), []))
    /\ (Exists (grants service name) (proto.Authorities tok) ->
        secureCall now resolver msg = (authorizePSI secCtx (Some tok), [])).
Proof.
  intros now resolver msg secCtx tok service name Hres Herr Htok Hexp Hnot Hname.
  rewrite (secureCall_checked now resolver msg secCtx (Some tok) Hres Herr Htok Hexp).
  rewrite (methodAccessCheck_split tok msg service name Hnot Hname).
  split; intros Hgr.
  - apply verifyAccess_Some_iff in Hgr. rewrite Hgr. reflexivity.
  - apply verifyAccess_nil_iff in Hgr. rewrite Hgr. reflexivity.
Qed.

(** X8: the context [secureCall] returns is the resolved one, but for the
    authorized tenant: every other key is kept, no authentication failure is
    on record, and the tenant key is written only on a multitenant
    connection with a token. *)
Theorem secureCall_context_kept :
  forall (now : ptypes.Time) (resolver : securityContextResolver) (msg : jsonrpcMessage)
         (secCtx ctx' : securityContext),
    Resolve resolver = Some secCtx ->
    fst (secureCall now resolver msg) = Ok ctx' ->
    ctxAuthenticationError secCtx = None
    /\ ctxAuthenticationError ctx' = None
    /\ CtxPreauthenticatedToken ctx' = CtxPreauthenticatedToken secCtx
    /\ ctxIsMultitenant ctx' = ctxIsMultitenant secCtx
    /\ ctxRequestPrivateStateIdentifier ctx' = ctxRequestPrivateStateIdentifier secCtx
    /\ (ctx' = secCtx
        \/ (ctxIsMultitenant secCtx = Some true
            /\ CtxPreauthenticatedToken secCtx <> None
            /\ CtxPrivateStateIdentifier ctx' <> None)).
Proof.
  intros now resolver msg secCtx ctx' Hres. unfold secureCall. rewrite Hres.
  destruct (ctxAuthenticationError secCtx) as [e |] eqn:Herr; [discriminate |].
  destruct (CtxPreauthenticatedToken secCtx) as [authToken |] eqn:Htok.
  - destruct (verifyExpiration now authToken) as [e |]; [discriminate |].
    destruct (methodAccessCheck authToken msg) as [[stop |] logged] eqn:Hacc; cbn [fst].
    + unfold methodAccessCheck in Hacc.
      destruct (negb (List.length (SplitN (Method msg) serviceMethodSeparator 2) =? 2)%nat);
        [discriminate Hacc |].
      destruct authToken as [tok |].
      * destruct (verifyAccess _ _ (proto.Authorities tok)); [| discriminate Hacc].
        injection Hacc as <- _. discriminate.
      * injection Hacc as <- _. discriminate.
    + intros Hok. destruct (authorizePSI_frame secCtx authToken ctx' Hok)
        as [-> | [Hmt [psi ->]]].
      * repeat split; try assumption. now left.
      * cbn. repeat split; try assumption. right.
        repeat split; [exact Hmt | discriminate | discriminate].
  - cbn [fst]. intros [= <-]. repeat split; try assumption. now left.
Qed.

(** X9: a [nil] token pointer under the token key, with no authentication
    failure on record, passes the expiry check at every time; the call then
    panics, before anything is logged, when its method name holds an
    underscore: the authorities are read through the [nil] pointer. *)
Theorem secureCall_nil_token_panics :
  forall (now : ptypes.Time) (resolver : securityContextResolver) (msg : jsonrpcMessage)
         (secCtx : securityContext),
    Resolve resolver = Some secCtx ->
    ctxAuthenticationError secCtx = None ->
    CtxPreauthenticatedToken secCtx = Some None ->
    In "_"%char (list_ascii_of_string (Method msg)) ->
    verifyExpiration now None = None
    /\ secureCall now resolver msg = (Panic, []).
Proof.
  intros now resolver msg secCtx Hres Herr Htok Hin. split; [reflexivity |].
  unfold secureCall. rewrite Hres, Herr, Htok. cbn.
  unfold methodAccessCheck. apply SplitN_length, Nat.eqb_eq in Hin.
  rewrite Hin. reflexivity.
Qed.

(** X10: once a call is answered with the error of the expiry check, every
    later call on the same connection is answered with the same error,
    whatever its method, before anything is logged. *)
Theorem secureCall_expired_from_then_on :
  forall (now later : ptypes.Time) (resolver : securityContextResolver)
         (msg msg' : jsonrpcMessage) (secCtx : securityContext) (authToken : tokenPtr)
         (e : error),
    Resolve resolver = Some secCtx ->
    ctxAuthenticationError secCtx = None ->
    CtxPreauthenticatedToken secCtx = Some authToken ->
    now <= later ->
    verifyExpiration now authToken = Some e ->
    secureCall now resolver msg = (Err e, [])
    /\ secureCall later resolver msg' = (Err e, []).
Proof.
  intros now later resolver msg msg' secCtx authToken e Hres Herr Htok Hle Hexp.
  split.
  - exact (secureCall_expired now resolver msg secCtx authToken e Hres Herr Htok Hexp).
  - apply (secureCall_expired later resolver msg' secCtx authToken e Hres Herr Htok).
    exact (verifyExpiration_monotone now later authToken e Hle Hexp).
Qed.

(** X11: [secureCall] logs at most the one warning, and only for a call
    whose token has passed the expiry check and whose method name holds no
    underscore. *)
Theorem secureCall_logs :
  forall (now : ptypes.Time) (resolver : securityContextResolver) (msg : jsonrpcMessage),
    snd (secureCall now resolver msg) = []
    \/ (snd (secureCall now resolver msg)
        = [Warn "unsupported method when performing authorization check"
                [("method", Method msg)]]
        /\ noUnderscore (Method msg)
        /\ exists secCtx authToken,
             Resolve resolver = Some secCtx
             /\ CtxPreauthenticatedToken secCtx = Some authToken
             /\ verifyExpiration now authToken = None).
Proof.
  intros now resolver msg. unfold secureCall.
  destruct (Resolve resolver) as [secCtx |]; [| left; reflexivity].
  destruct (ctxAuthenticationError secCtx) as [e |]; [left; reflexivity |].
  destruct (CtxPreauthenticatedToken secCtx) as [authToken |] eqn:Htok; [| left; reflexivity].
  destruct (verifyExpiration now authToken) as [e |] eqn:Hexp; [left; reflexivity |].
  unfold methodAccessCheck.
  destruct (List.length (SplitN (Method msg) serviceMethodSeparator 2) =? 2)%nat eqn:Hlen;
    cbn [negb].
  - left. destruct authToken as [tok |]; [| reflexivity].
    destruct (verifyAccess _ _ (proto.Authorities tok)); reflexivity.
  - right. split; [reflexivity | split].
    + intros Hin. apply SplitN_length, Nat.eqb_eq in Hin. congruence.
    + exists secCtx, authToken. repeat split; assumption.
Qed.

End MoreCallAuthorizer.

(** * Further properties of the tenant tag and of its sources *)
Section MorePSI.
Import rpc transport.
Local Open Scope list_scope.

Lemma list_ascii_of_string_of_list_byte (l : list byte) :
  list_ascii_of_string (string_of_list_byte l) = map ascii_of_byte l.
Proof. unfold string_of_list_byte. apply list_ascii_of_string_of_list_ascii. Qed.

Lemma separator_byte (l : list byte) :
  In "/"%char (list_ascii_of_string (string_of_list_byte l)) <-> In x2f l.
Proof.
  rewrite list_ascii_of_string_of_list_byte, in_map_iff. split.
  - intros [b [Hb Hin]].
    assert (Hx : b = x2f) by (rewrite <- (byte_of_ascii_of_byte b), Hb; reflexivity).
    now subst b.
  - intros Hin. exists x2f. split; [reflexivity | exact Hin].
Qed.

(** [decodePSI] on an id of the quoted shape whose first part holds no
    separator. *)
Lemma decodePSI_quoted_shape (pre rest : list byte) :
  ~ In x2f pre ->
  decodePSI (x22 :: pre ++ x2f :: rest ++ [x22]) = string_of_list_byte pre.
Proof.
  intros Hpre.
  pose proof (encodePSI_tagged rest (string_of_list_byte pre)) as Htag.
  destruct pre as [| b pre].
  - unfold decodePSI. cbn [app].
    rewrite !string_of_list_byte_cons, string_of_list_byte_app.
    assert (Hsuf : HasSuffix (String (ascii_of_byte x22)
                                (String (ascii_of_byte x2f)
                                   (string_of_list_byte rest ++ string_of_list_byte [x22])))
                             dquote = true).
    { change (String (ascii_of_byte x22)
                (String (ascii_of_byte x2f)
                   (string_of_list_byte rest ++ string_of_list_byte [x22])))%string
        with ((String (ascii_of_byte x22)
                 (String (ascii_of_byte x2f) (string_of_list_byte rest))) ++ dquote)%string.
      apply HasSuffix_app. }
    rewrite Hsuf. unfold HasPrefix, dquote. rewrite prefix_char.
    cbn [Index]. rewrite !prefix_char. reflexivity.
  - rewrite <- (list_byte_of_string_of_list_byte (b :: pre)) at 1.
    rewrite <- Htag by (rewrite string_of_list_byte_cons; discriminate).
    apply decodePSI_encodePSI_roundtrip.
    + rewrite string_of_list_byte_cons. discriminate.
    + unfold noSeparator. now rewrite separator_byte.
Qed.

(** X12: for a non-empty tenant identifier the id built by [encodePSI] is
    the double quote, the identifier, the separator, the counter and the
    double quote, in this order; it is three bytes longer than the two
    together. *)
Theorem encodePSI_layout :
  forall (id : list byte) (psi : PrivateStateIdentifier),
    psi <> EmptyString ->
    encodePSI id psi = x22 :: list_byte_of_string psi ++ x2f :: id ++ [x22]
    /\ List.length (encodePSI id psi) = (List.length id + String.length psi + 3)%nat.
Proof.
  intros id psi Hpsi. rewrite (encodePSI_tagged id psi Hpsi). split; [reflexivity |].
  cbn [List.length]. rewrite length_app. cbn [List.length].
  rewrite length_app, list_byte_of_string_length. cbn [List.length]. lia.
Qed.

Lemma encodePSI_layout_PS1 :
  encodePSI (list_byte_of_string "32") "PS1"
  = x22 :: list_byte_of_string "PS1" ++ x2f :: list_byte_of_string "32" ++ [x22]
  /\ List.length (encodePSI (list_byte_of_string "32") "PS1") = 8%nat.
Proof.
  apply (encodePSI_layout (list_byte_of_string "32") "PS1"). discriminate.
Defined.

(** X13: two encoded ids are equal only for the same counter and the same
    tenant identifier, when the identifiers are not empty and hold no
    separator. *)
Theorem encodePSI_injective :
  forall (id id' : list byte) (psi psi' : PrivateStateIdentifier),
    psi <> EmptyString -> psi' <> EmptyString ->
    noSeparator psi -> noSeparator psi' ->
    encodePSI id psi = encodePSI id' psi' ->
    psi = psi' /\ id = id'.
Proof.
  intros id id' psi psi' Hpsi Hpsi' Hsep Hsep' Heq.
  assert (Hsame : psi = psi').
  { rewrite <- (decodePSI_encodePSI_roundtrip id psi Hpsi Hsep).
    rewrite <- (decodePSI_encodePSI_roundtrip id' psi' Hpsi' Hsep').
    now rewrite Heq. }
  split; [exact Hsame |]. subst psi'.
  rewrite !encodePSI_tagged in Heq by assumption.
  injection Heq as Heq. apply app_inv_head in Heq. injection Heq as Heq.
  now apply app_inv_tail in Heq.
Qed.

Lemma encodePSI_injective_PS1 :
  noSeparator "PS1"
  /\ ("PS1" = "PS1" /\ list_byte_of_string "1" = list_byte_of_string "1").
Proof.
  assert (Hsep : noSeparator "PS1").
  { unfold noSeparator. cbn. intuition discriminate. }
  split; [exact Hsep |].
  apply (encodePSI_injective (list_byte_of_string "1") (list_byte_of_string "1")
                             "PS1" "PS1");
    [discriminate | discriminate | exact Hsep | exact Hsep | reflexivity].
Defined.

(** X14: the identifier [decodePSI] returns never holds the separator. *)
Theorem decodePSI_without_separator :
  forall id : list byte, noSeparator (decodePSI id).
Proof.
  intros id. unfold decodePSI.
  destruct (negb (HasPrefix (string_of_list_byte id) dquote)
            || negb (HasSuffix (string_of_list_byte id) dquote)) eqn:Hshape.
  { unfold noSeparator, DefaultPrivateStateIdentifier. cbn. intuition discriminate. }
  destruct (Index (string_of_list_byte id) "/") as [sepIdx |] eqn:Hidx.
  2:{ unfold noSeparator, DefaultPrivateStateIdentifier. cbn. intuition discriminate. }
  unfold noSeparator. rewrite separator_byte. unfold slice.
  intros Hin.
  assert (Hfirst : forall (l : list byte) (k : nat),
             Index (string_of_list_byte l) "/" = Some k -> ~ In x2f (firstn k l)).
  { clear. induction l as [| b l IH]; intros k Hk.
    - destruct k; cbn; tauto.
    - rewrite string_of_list_byte_cons in Hk. cbn [Index] in Hk.
      rewrite prefix_char in Hk.
      destruct (Ascii.eqb_spec "/" (ascii_of_byte b)) as [Heq | Hne].
      + injection Hk as <-. cbn. tauto.
      + destruct (Index (string_of_list_byte l) "/") as [m |] eqn:Hm; [| discriminate Hk].
        injection Hk as <-. cbn [firstn]. intros [Hb | Hin'].
        * apply Hne. rewrite Hb. reflexivity.
        * exact (IH m eq_refl Hin'). }
  destruct id as [| b l];
    [cbn [skipn] in Hin; rewrite firstn_nil in Hin; contradiction |].
  destruct sepIdx as [| k].
  - cbn in Hin. destruct l; cbn in Hin; tauto.
  - apply (Hfirst (b :: l) (S k) Hidx). cbn [firstn]. right.
    cbn [skipn] in Hin. replace (S k - 1)%nat with k in Hin by lia. exact Hin.
Qed.

(** X15: an id of the quoted shape is read as tagged whoever built it: for
    every [pre] without separator, [decodePSI] of the double quote, [pre],
    the separator, any [rest] and the double quote is [pre], the empty
    identifier included. *)
Theorem decodePSI_quoted :
  forall pre rest : list byte,
    ~ In x2f pre ->
    decodePSI (x22 :: pre ++ x2f :: rest ++ [x22]) = string_of_list_byte pre
    /\ decodePSI (x22 :: x2f :: rest ++ [x22]) = EmptyString.
Proof.
  intros pre rest Hpre. split.
  - now apply decodePSI_quoted_shape.
  - apply (decodePSI_quoted_shape [] rest). intros [].
Qed.

Lemma decodePSI_quoted_client_id :
  decodePSI (x22 :: list_byte_of_string "job" ++ x2f :: list_byte_of_string "7" ++ [x22])
  = "job".
Proof.
  apply (decodePSI_quoted (list_byte_of_string "job") (list_byte_of_string "7")).
  cbn. intuition discriminate.
Defined.

(** X18: the slice [id[1:sepIdx]] taken by [decodePSI] is always within
    the id: when the id starts with a double quote and its first separator
    is at [sepIdx], then [1 <= sepIdx <= len(id)]. *)
Theorem decodePSI_slice_never_out_of_range :
  forall (id : list byte) (sepIdx : nat),
    HasPrefix (string_of_list_byte id) dquote = true ->
    Index (string_of_list_byte id) "/" = Some sepIdx ->
    (1 <= sepIdx <= List.length id)%nat.
Proof. intros id sepIdx. apply decodePSI_slice_in_bounds. Qed.

Lemma decodePSI_slice_within_tagged :
  (1 <= 4 <= List.length (encodePSI (list_byte_of_string "32") "PS1"))%nat.
Proof.
  apply (decodePSI_slice_never_out_of_range
           (encodePSI (list_byte_of_string "32") "PS1") 4);
    reflexivity.
Defined.

(** What [extractPSI] answers, case by case. *)
Lemma extractPSI_cases (r : Request) :
  let header := Header_Get r HttpPrivateStateIdentifierHeader in
  let query := URL_Query_Get r QueryPrivateStateIdentifierParamName in
  (header <> EmptyString /\ extractPSI r = (header, true))
  \/ (header = EmptyString /\ query <> EmptyString /\ extractPSI r = (query, true))
  \/ (header = EmptyString /\ query = EmptyString
      /\ extractPSI r = (DefaultPrivateStateIdentifier, false)).
Proof.
  cbv zeta. unfold extractPSI.
  destruct (Header_Get r HttpPrivateStateIdentifierHeader) as [| c header].
  - cbn [String.length Nat.eqb].
    destruct (URL_Query_Get r QueryPrivateStateIdentifierParamName) as [| c query].
    + right; right. repeat split.
    + right; left. repeat split. discriminate.
  - left. split; [discriminate | reflexivity].
Qed.

(** X16: [extractPSI] takes the tenant identifier from the header when the
    header is not empty, otherwise from the query parameter; it answers with
    the flag exactly when one of them is not empty, never with an empty
    identifier, and with the default identifier when both are empty. *)
Theorem extractPSI_precedence :
  forall r : Request,
    (Header_Get r HttpPrivateStateIdentifierHeader <> EmptyString ->
     extractPSI r = (Header_Get r HttpPrivateStateIdentifierHeader, true))
    /\ (Header_Get r HttpPrivateStateIdentifierHeader = EmptyString ->
        URL_Query_Get r QueryPrivateStateIdentifierParamName <> EmptyString ->
        extractPSI r = (URL_Query_Get r QueryPrivateStateIdentifierParamName, true))
    /\ (snd (extractPSI r) = false
        <-> Header_Get r HttpPrivateStateIdentifierHeader = EmptyString
            /\ URL_Query_Get r QueryPrivateStateIdentifierParamName = EmptyString)
    /\ (snd (extractPSI r) = false -> fst (extractPSI r) = DefaultPrivateStateIdentifier)
    /\ fst (extractPSI r) <> EmptyString.
Proof.
  intros r.
  destruct (extractPSI_cases r) as [[Hh Hr] | [[Hh [Hq Hr]] | [Hh [Hq Hr]]]];
    rewrite Hr; cbn [fst snd]; repeat split;
    try congruence; try discriminate; try tauto.
  all: intros [H1 H2]; congruence.
Qed.

(** X17: the identifier [extractPSI] answers always tags an id: [encodePSI]
    never leaves the id as it is for it, the default identifier of a request
    that names no tenant included, and [decodePSI] reads the identifier
    back when it holds no separator. *)
Theorem extractPSI_then_encodePSI :
  forall (r : Request) (id : list byte),
    encodePSI id (fst (extractPSI r))
    = x22 :: list_byte_of_string (fst (extractPSI r)) ++ x2f :: id ++ [x22]
    /\ encodePSI id (fst (extractPSI r)) <> id
    /\ (noSeparator (fst (extractPSI r)) ->
        decodePSI (encodePSI id (fst (extractPSI r))) = fst (extractPSI r)).
Proof.
  intros r id.
  assert (Hne : fst (extractPSI r) <> EmptyString).
  { destruct (extractPSI_cases r) as [[Hh Hr] | [[Hh [Hq Hr]] | [Hh [Hq Hr]]]];
      rewrite Hr; cbn [fst]; [assumption | assumption | discriminate]. }
  pose proof (encodePSI_tagged id (fst (extractPSI r)) Hne) as Htag.
  split; [exact Htag | split].
  - intros Heq. apply (f_equal (@List.length byte)) in Heq.
    rewrite Htag in Heq. cbn [List.length] in Heq.
    rewrite length_app in Heq. cbn [List.length] in Heq.
    rewrite length_app in Heq. cbn [List.length] in Heq. lia.
  - intros Hsep. now apply decodePSI_encodePSI_roundtrip.
Qed.

End MorePSI.

(** * The tenant provider of an endpoint *)
Section PSIProvider.
Import rpc transport.
Context {H : Host}.

Lemma WithValue_other ctx key val k :
  k <> key -> WithValue ctx key val k = ctx k.
Proof.
  intros Hne. unfold WithValue.
  destruct (String.eqb_spec k key) as [Heq | _]; [contradiction | reflexivity].
Qed.

Lemma WithValue_same ctx key val : WithValue ctx key val key = Some val.
Proof. unfold WithValue. now rewrite String.eqb_refl. Qed.

Lemma positive_length s : (0 <? String.length s)%nat = true <-> s <> EmptyString.
Proof.
  destruct s as [| c s]; cbn; split; intros H0; try discriminate; try reflexivity.
  now contradiction H0.
Qed.

Lemma zero_length s : (0 <? String.length s)%nat = false <-> s = EmptyString.
Proof. destruct s as [| c s]; cbn; split; intros H0; try discriminate; reflexivity. Qed.

(** X19: [resolvePSIProvider] writes no key but the provider's: every other
    value of the context is the one it had. *)
Theorem resolvePSIProvider_other_keys :
  forall (ctx : Context) (endpoint : string) (key : securityContextKey),
    key <> CtxPSIProvider ->
    resolvePSIProvider ctx endpoint key = ctx key.
Proof.
  intros ctx endpoint key Hne. unfold resolvePSIProvider.
  destruct (url_Parse endpoint) as [parsedUrl |]; [| reflexivity].
  cbv zeta.
  match goal with |- (if ?c then _ else _) _ = _ => destruct c end;
    [now apply WithValue_other | reflexivity].
Qed.

(** X20: the provider [resolvePSIProvider] installs never fails and never
    yields the empty identifier: the provider key is left as it was, or holds
    a provider that answers one non-empty identifier and no error; an
    endpoint that does not parse leaves the whole context as it was. *)
Theorem resolvePSIProvider_provider :
  forall (ctx : Context) (endpoint : string),
    (resolvePSIProvider ctx endpoint CtxPSIProvider = ctx CtxPSIProvider
     \/ exists psi : PrivateStateIdentifier,
          psi <> EmptyString
          /\ resolvePSIProvider ctx endpoint CtxPSIProvider
             = Some (psiProvider (fun _ => (psi, None))))
    /\ (url_Parse endpoint = None ->
        forall key, resolvePSIProvider ctx endpoint key = ctx key).
Proof.
  intros ctx endpoint. unfold resolvePSIProvider. split.
  - destruct (url_Parse endpoint) as [parsedUrl |]; [| left; reflexivity].
    cbv zeta.
    match goal with
    | |- (if (0 <? String.length ?raw)%nat then _ else _) _ = _ \/ _ =>
        destruct (0 <? String.length raw)%nat eqn:Hraw; [right; exists raw | left; reflexivity]
    end.
    split; [now apply positive_length | apply WithValue_same].
  - intros Hparse key. now rewrite Hparse.
Qed.

(** X21: the environment comes first: for an endpoint that parses, a
    non-empty [GOQUORUM_PSI] is the identifier of the provider, whatever the
    endpoint says. *)
Theorem resolvePSIProvider_environment_first :
  forall (ctx : Context) (endpoint : string) (parsedUrl : URL),
    url_Parse endpoint = Some parsedUrl ->
    os_Getenv EnvVarPrivateStateIdentifier <> EmptyString ->
    resolvePSIProvider ctx endpoint CtxPSIProvider
    = Some (psiProvider (fun _ => (os_Getenv EnvVarPrivateStateIdentifier, None))).
Proof.
  intros ctx endpoint parsedUrl Hparse Henv. unfold resolvePSIProvider.
  rewrite Hparse. cbv zeta.
  apply positive_length in Henv. rewrite Henv, Henv. apply WithValue_same.
Qed.

(** X22: without [GOQUORUM_PSI], the identifier is the [PSI] query parameter
    of an http, https, ws or wss endpoint; an endpoint of another scheme, or
    one without that parameter, leaves the context as it was. *)
Theorem resolvePSIProvider_from_endpoint :
  forall (ctx : Context) (endpoint : string) (parsedUrl : URL),
    url_Parse endpoint = Some parsedUrl ->
    os_Getenv EnvVarPrivateStateIdentifier = EmptyString ->
    (networkScheme (Scheme parsedUrl) = true ->
     Query_Get parsedUrl QueryPrivateStateIdentifierParamName <> EmptyString ->
     resolvePSIProvider ctx endpoint CtxPSIProvider
     = Some (psiProvider
               (fun _ => (Query_Get parsedUrl QueryPrivateStateIdentifierParamName, None))))
    /\ (networkScheme (Scheme parsedUrl) = false
        \/ Query_Get parsedUrl QueryPrivateStateIdentifierParamName = EmptyString ->
        forall key, resolvePSIProvider ctx endpoint key = ctx key).
Proof.
  intros ctx endpoint parsedUrl Hparse Henv. unfold resolvePSIProvider.
  rewrite Hparse, Henv. cbv zeta.
  change (0 <? String.length EmptyString)%nat with false. cbv iota. split.
  - intros Hnet Hquery. rewrite Hnet.
    apply positive_length in Hquery. rewrite Hquery. apply WithValue_same.
  - intros [Hnet | Hquery] key.
    + rewrite Hnet. reflexivity.
    + destruct (networkScheme (Scheme parsedUrl)); [| reflexivity].
      rewrite Hquery. reflexivity.
Qed.

End PSIProvider.

(** * Starting and stopping the plugins *)
Section PluginManager.
Import plugin.
Local Open Scope list_scope.

(** The first loop of [Start]: either every plugin starts, or the loop ends
    at the first one that does not. *)
Lemma startLoop_spec plugins :
  (Forall (fun p => Start_ p = None) plugins
   /\ startLoop plugins = (None, plugins, map started plugins))
  \/ exists before bad after e,
       plugins = before ++ bad :: after
       /\ Forall (fun p => Start_ p = None) before
       /\ Start_ bad = Some e
       /\ startLoop plugins = (Some e, before, map started before ++ [started bad]).
Proof.
  induction plugins as [| p rest IH].
  - left. split; [constructor | reflexivity].
  - cbn [startLoop]. destruct (Start_ p) as [e |] eqn:Hp.
    + right. exists [], p, rest, e. repeat split; [constructor | exact Hp].
    + destruct IH as [[Hall Hloop] | [before [bad [after [e [Hsplit [Hall [Hbad Hloop]]]]]]]];
        rewrite Hloop.
      * left. split; [now constructor | reflexivity].
      * right. exists (p :: before), bad, after, e. subst rest.
        repeat split; [now constructor | exact Hbad].
Qed.

Lemma startLoop_failure before bad after e :
  Forall (fun p => Start_ p = None) before ->
  Start_ bad = Some e ->
  startLoop (before ++ bad :: after) = (Some e, before, map started before ++ [started bad]).
Proof.
  intros Hall Hbad. induction Hall as [| p before Hp Hall IH]; cbn [app startLoop].
  - now rewrite Hbad.
  - now rewrite Hp, IH.
Qed.

(** X23: when a plugin does not start, [Start] answers with its error
    after stopping, in the order they were started, the plugins started
    before it; the plugin that failed is not stopped and the ones after it
    are neither started nor stopped. *)
Theorem Start_rolls_back :
  forall (before after : list managedPlugin) (bad : managedPlugin) (e : error),
    Forall (fun p => Start_ p = None) before ->
    Start_ bad = Some e ->
    Start (before ++ bad :: after)
    = (Some e,
       logInfo "Starting all plugins" (List.length (before ++ bad :: after))
       :: map started before ++ [started bad] ++ map stopped before).
Proof.
  intros before after bad e Hall Hbad. unfold Start.
  rewrite (startLoop_failure before bad after e Hall Hbad).
  cbn [app]. now rewrite <- app_assoc.
Qed.

Lemma Start_rolls_back_helloworld :
  Start [samples.security; samples.account; samples.helloworld]
  = (Some (errorString "helloworld: no binary"),
     [logInfo "Starting all plugins" 3;
      started samples.security; started samples.account; started samples.helloworld;
      stopped samples.security; stopped samples.account]).
Proof.
  apply (Start_rolls_back [samples.security; samples.account] [] samples.helloworld).
  - repeat constructor.
  - reflexivity.
Defined.

(** X24: [Start] answers [nil] exactly when every plugin starts, and then
    it has started each of them once, in order, and stopped none. *)
Theorem Start_succeeds_iff :
  forall plugins : list managedPlugin,
    (fst (Start plugins) = None <-> Forall (fun p => Start_ p = None) plugins)
    /\ (fst (Start plugins) = None ->
        snd (Start plugins)
        = logInfo "Starting all plugins" (List.length plugins) :: map started plugins).
Proof.
  intros plugins. unfold Start.
  destruct (startLoop_spec plugins)
    as [[Hall Hloop] | [before [bad [after [e [Hsplit [Hall [Hbad Hloop]]]]]]]];
    rewrite Hloop; cbn [fst snd].
  - split; [split; [intros _; exact Hall | reflexivity] | reflexivity].
  - split; [split; [discriminate |] | discriminate].
    intros Hforall. subst plugins. apply Forall_app in Hforall as [_ Hforall].
    inversion Hforall as [| x l Hx Hl]; subst. congruence.
Qed.

(** X25: a plugin is stopped by [Start] only in a failed start and only
    after it was started by it: [Start] leaves no plugin running behind an
    error, and stops nothing it did not start. *)
Theorem Start_stops_what_it_started :
  forall (plugins : list managedPlugin) (p : managedPlugin),
    (In (stopped p) (snd (Start plugins)) ->
     fst (Start plugins) <> None
     /\ In (started p) (snd (Start plugins)) /\ Start_ p = None)
    /\ (fst (Start plugins) <> None ->
        In (started p) (snd (Start plugins)) -> Start_ p = None ->
        In (stopped p) (snd (Start plugins))).
Proof.
  intros plugins p. unfold Start.
  assert (Hns : forall l, ~ In (stopped p) (map started l)).
  { intros l Hin. apply in_map_iff in Hin as [x [Hx _]]. discriminate Hx. }
  assert (Hst : forall l, In (stopped p) (map stopped l) <-> In p l).
  { intros l. rewrite in_map_iff. split.
    - intros [x [[= ->] Hin]]. exact Hin.
    - intros Hin. now exists p. }
  assert (Hsd : forall l, In (started p) (map started l) <-> In p l).
  { intros l. rewrite in_map_iff. split.
    - intros [x [[= ->] Hin]]. exact Hin.
    - intros Hin. now exists p. }
  destruct (startLoop_spec plugins)
    as [[Hall Hloop] | [before [bad [after [e [Hsplit [Hall [Hbad Hloop]]]]]]]];
    rewrite Hloop; cbn [fst snd].
  - split.
    + intros [Habs | Hin]; [discriminate Habs | now apply Hns in Hin].
    + intros Habs. now contradiction Habs.
  - split.
    + intros [Habs | Hin]; [discriminate Habs |].
      rewrite !in_app_iff in Hin. destruct Hin as [[Hin | Hin] | Hin].
      * now apply Hns in Hin.
      * destruct Hin as [Habs | []]. discriminate Habs.
      * apply Hst in Hin. split; [discriminate | split].
        -- right. rewrite !in_app_iff. left; left. now apply Hsd.
        -- rewrite Forall_forall in Hall. now apply Hall.
    + intros _ [Habs | Hin] Hp; [discriminate Habs |].
      right. rewrite !in_app_iff in *. right. apply Hst.
      destruct Hin as [[Hin | Hin] | Hin].
      * now apply Hsd.
      * destruct Hin as [[= ->] | []]. congruence.
      * apply in_map_iff in Hin as [x [Hx _]]. discriminate Hx.
Qed.

Lemma stopLoop_spec plugins :
  stopLoop plugins = (stopErrors plugins, map stopped plugins).
Proof.
  induction plugins as [| p rest IH]; [reflexivity |].
  cbn [stopLoop]. rewrite IH. unfold stopErrors. cbn [flat_map map].
  destruct (Stop_ p); reflexivity.
Qed.

Lemma stopErrors_nil plugins :
  stopErrors plugins = [] <-> Forall (fun p => Stop_ p = None) plugins.
Proof.
  induction plugins as [| p rest IH]; [split; [constructor | reflexivity] |].
  unfold stopErrors in *. cbn [flat_map]. destruct (Stop_ p) as [e |] eqn:Hp.
  - split; [discriminate | intros Hall; inversion Hall; congruence].
  - cbn [app]. rewrite IH. split; [now constructor | intros Hall; now inversion Hall].
Qed.

(** X26: [Stop] stops every plugin once, in order, also after one of them
    has failed to stop; it answers [nil] exactly when every plugin stops, and
    otherwise with one error whose text lists the errors met, in order. *)
Theorem Stop_stops_every_plugin :
  forall plugins : list managedPlugin,
    snd (Stop plugins)
    = logInfo "Stopping all plugins" (List.length plugins)
      :: map stopped plugins ++ [logStopped "All plugins stopped" (stopErrors plugins)]
    /\ (fst (Stop plugins) = None <-> Forall (fun p => Stop_ p = None) plugins)
    /\ (fst (Stop plugins) = None
        \/ fst (Stop plugins) = Some (errorString (showErrors (stopErrors plugins)))).
Proof.
  intros plugins. unfold Stop. rewrite stopLoop_spec.
  destruct (stopErrors plugins) as [| e errs] eqn:Herrs; cbn [List.length Nat.eqb fst snd].
  - repeat split; [intros _; now apply stopErrors_nil | now left].
  - repeat split; [discriminate | | now right].
    intros Hall. apply stopErrors_nil in Hall. congruence.
Qed.

Example Stop_after_failure :
  Stop [samples.account; samples.security]
  = (Some (errorString "[account: busy]"),
     [logInfo "Stopping all plugins" 2;
      stopped samples.account; stopped samples.security;
      logStopped "All plugins stopped" [errorString "account: busy"]]).
Proof. reflexivity. Qed.

End PluginManager.

(** * The further properties at sample inputs *)
Section MoreAtConcreteInputs.
Import rpc calls transport samples.

Lemma noUnderscore_eth : noUnderscore "eth".
Proof. unfold noUnderscore. cbn. intuition discriminate. Defined.

Lemma secureCall_allows_only_authorized_openToken :
  fst (secureCall (M := entitlesNone) 0 (mkResolver (Some (plainContext openToken)))
                  (request "eth_get_balance"))
  = Ok (plainContext openToken)
  /\ verifyExpiration 0 (Some openToken) = None
  /\ verifyAccess "eth" "get_balance" (proto.Authorities openToken) = None.
Proof.
  split; [reflexivity |].
  destruct (@secureCall_allows_only_authorized entitlesNone 0
              (mkResolver (Some (plainContext openToken))) (request "eth_get_balance")
              (plainContext openToken) (plainContext openToken) openToken
              eq_refl eq_refl eq_refl) as [Hexp Hacc].
  split; [exact Hexp |].
  exact (Hacc "eth" "get_balance" noUnderscore_eth eq_refl).
Defined.

Lemma secureCall_method_check_bareToken :
  secureCall (M := entitlesNone) 0 (mkResolver (Some (plainContext bareToken)))
             (request "eth_get_balance")
  = (Err (securityError "eth_get_balance - access denied"), []).
Proof.
  apply (proj1 (@secureCall_method_check entitlesNone 0
                  (mkResolver (Some (plainContext bareToken))) (request "eth_get_balance")
                  (plainContext bareToken) bareToken "eth" "get_balance"
                  eq_refl eq_refl eq_refl eq_refl noUnderscore_eth eq_refl)).
  intros Hex. inversion Hex.
Defined.

Lemma secureCall_context_kept_tenant_from_token :
  fst (secureCall (M := entitlesNone) 0
                  (mkResolver (Some (multitenantContext openToken None)))
                  (request "eth_blockNumber"))
  = Ok (WithPrivateStateIdentifier (multitenantContext openToken None) "PS1")
  /\ CtxPreauthenticatedToken
       (WithPrivateStateIdentifier (multitenantContext openToken None) "PS1")
     = CtxPreauthenticatedToken (multitenantContext openToken None).
Proof.
  split; [reflexivity |].
  exact (proj1 (proj2 (proj2 (@secureCall_context_kept entitlesNone 0
                                (mkResolver (Some (multitenantContext openToken None)))
                                (request "eth_blockNumber")
                                (multitenantContext openToken None)
                                (WithPrivateStateIdentifier
                                   (multitenantContext openToken None) "PS1")
                                eq_refl eq_refl)))).
Defined.

Lemma secureCall_nil_token_panics_blockNumber :
  secureCall (M := entitlesNone) 0
             (mkResolver (Some (mkSecurityContext None (Some None) None None None)))
             (request "eth_blockNumber")
  = (Panic, []).
Proof.
  refine (proj2 (@secureCall_nil_token_panics entitlesNone 0
                   (mkResolver (Some (mkSecurityContext None (Some None) None None None)))
                   (request "eth_blockNumber")
                   (mkSecurityContext None (Some None) None None None)
                   eq_refl eq_refl eq_refl _)).
  cbn. do 3 right. now left.
Defined.

Lemma secureCall_expired_from_then_on_earlyToken :
  secureCall (M := entitlesNone) 2000000000
             (mkResolver (Some (plainContext earlyToken))) (request "eth_blockNumber")
  = (Err (securityError "token expired"), [])
  /\ secureCall (M := entitlesNone) 3000000000
                (mkResolver (Some (plainContext earlyToken))) (request "net_version")
     = (Err (securityError "token expired"), []).
Proof.
  apply (@secureCall_expired_from_then_on entitlesNone 2000000000 3000000000
           (mkResolver (Some (plainContext earlyToken)))
           (request "eth_blockNumber") (request "net_version")
           (plainContext earlyToken) (Some earlyToken));
    [reflexivity | reflexivity | reflexivity | discriminate | reflexivity].
Defined.

Lemma resolvePSIProvider_other_keys_credentials :
  resolvePSIProvider (H := hostWith "PS9") dialContext "http://node:8545/?PSI=PS1"
                     CtxCredentialsProvider
  = Some (otherValue "credentials").
Proof.
  rewrite (@resolvePSIProvider_other_keys (hostWith "PS9") dialContext
             "http://node:8545/?PSI=PS1" CtxCredentialsProvider);
    [reflexivity | discriminate].
Defined.

Lemma resolvePSIProvider_environment_first_PS9 :
  resolvePSIProvider (H := hostWith "PS9") dialContext "http://node:8545/?PSI=PS1"
                     CtxPSIProvider
  = Some (psiProvider (fun _ => ("PS9", None))).
Proof.
  apply (@resolvePSIProvider_environment_first (hostWith "PS9") dialContext
           "http://node:8545/?PSI=PS1" (mkURL "http" queryPS1));
    [reflexivity | discriminate].
Defined.

Lemma resolvePSIProvider_from_endpoint_http_and_ipc :
  resolvePSIProvider (H := hostWith EmptyString) dialContext "http://node:8545/?PSI=PS1"
                     CtxPSIProvider
  = Some (psiProvider (fun _ => ("PS1", None)))
  /\ resolvePSIProvider (H := hostWith EmptyString) dialContext "/tmp/geth.ipc"
                        CtxPSIProvider
     = None.
Proof.
  split.
  - apply (proj1 (@resolvePSIProvider_from_endpoint (hostWith EmptyString) dialContext
                    "http://node:8545/?PSI=PS1" (mkURL "http" queryPS1)
                    eq_refl eq_refl));
      [reflexivity | discriminate].
  - rewrite (proj2 (@resolvePSIProvider_from_endpoint (hostWith EmptyString) dialContext
                      "/tmp/geth.ipc" (mkURL EmptyString queryPS1) eq_refl eq_refl)
                   (or_introl eq_refl) CtxPSIProvider).
    reflexivity.
Defined.

End MoreAtConcreteInputs.
